(** * Claudix: content-block classifier, selection state and webview bridge

    A shallow embedding of three TypeScript modules of the extension:
    - the parser of content blocks, next to [models/ContentBlock]
      ([parseMessageContent] and its helpers),
    - [services/selectionState]   (the [SelectionState] singleton),
    - [services/webViewService]   (the registry of webviews and the queue of
      pending messages),
    followed by the properties established about them.

    Conventions of the embedding.
    - A JavaScript string is a [string]; one [ascii] stands for one UTF-16 code
      unit below 256, so ["160"] is the no-break space that [\s] and [trim]
      treat as white space.
    - A value of type [any] that reaches the classifier is a [json] tree, the
      shape [JSON.parse] builds; [undefined] is the [None] of an [option].
      A number is an integer; the printing and the reading of numbers follow
      the engine on the safe integers (at most 2^53 - 1 in magnitude), and a
      statement that names the digits of a number is made for those.
    - A synchronous exception is the [None] of the result of a function whose
      name the source has; a function that cannot throw returns its value. *)

From Stdlib Require Import ZArith Lia Ascii String List Bool DecimalString.
From stdpp Require Import base option strings list gmap.

Local Open Scope Z_scope.

(** ** Text primitives of the engine *)

Module Js.

Definition LF : string := String "010"%char "".

Definition DQ : string := String (ascii_of_N 34) "".

Definition code (c : ascii) : N := N_of_ascii c.

(** WhiteSpace and LineTerminator code units below 256. *)
Definition isWhiteSpace (c : ascii) : bool :=
  match code c with
  | 9%N | 10%N | 11%N | 12%N | 13%N | 32%N | 160%N => true
  | _ => false
  end.

Definition isLineTerminator (c : ascii) : bool :=
  match code c with
  | 10%N | 13%N => true
  | _ => false
  end.

Definition isDigit (c : ascii) : bool :=
  (48 <=? code c)%N && (code c <=? 57)%N.

Definition anyChar (_ : ascii) : bool := true.

Definition notChar (x c : ascii) : bool := negb (Ascii.eqb x c).

Definition dot (c : ascii) : bool := negb (isLineTerminator c).

(** [s.startsWith(p)], returning what follows the prefix. *)
Fixpoint stripPrefix (p s : string) : option string :=
  match p with
  | EmptyString => Some s
  | String a p' =>
      match s with
      | String b s' => if Ascii.eqb a b then stripPrefix p' s' else None
      | EmptyString => None
      end
  end.

Definition startsWith (s p : string) : bool :=
  match stripPrefix p s with Some _ => true | None => false end.

(** [s.includes(p)]. *)
Fixpoint includes (s p : string) : bool :=
  startsWith s p ||
  match s with
  | String _ s' => includes s' p
  | EmptyString => false
  end.

(** [s.substring(i, i + n)] for indices inside [s]. *)
Fixpoint slice (i n : nat) (s : string) : string :=
  match i, n, s with
  | _, O, _ => EmptyString
  | _, _, EmptyString => EmptyString
  | O, S n', String c s' => String c (slice O n' s')
  | S i', _, String _ s' => slice i' n s'
  end.

(** [String.prototype.trim], from its two halves. *)
Fixpoint trimStart (s : string) : string :=
  match s with
  | String c s' => if isWhiteSpace c then trimStart s' else s
  | EmptyString => EmptyString
  end.

Fixpoint trimEnd (s : string) : string :=
  match s with
  | String c s' =>
      match trimEnd s' with
      | EmptyString => if isWhiteSpace c then EmptyString else String c EmptyString
      | t => String c t
      end
  | EmptyString => EmptyString
  end.

Definition trim (s : string) : string := trimEnd (trimStart s).

(** [s.split('/').pop()]: what follows the last slash. *)
Fixpoint lastSegment (s : string) : string :=
  match s with
  | String c s' =>
      if includes s' "/" then lastSegment s'
      else if Ascii.eqb c "/" then s' else s
  | EmptyString => EmptyString
  end.

(** [parseInt(ds, 10)] on a run of decimal digits. The integer is kept exact,
    where the engine rounds one beyond 2^53. *)
Definition digitValue (c : ascii) : Z := Z.of_N (code c) - 48.

Fixpoint parseDigits (acc : Z) (s : string) : Z :=
  match s with
  | String c s' => if isDigit c then parseDigits (10 * acc + digitValue c) s' else acc
  | EmptyString => acc
  end.

Definition parseInt (s : string) : Z := parseDigits 0 s.

(** [Number.prototype.toString] on a safe integer: its decimal digits, after
    a minus sign when it is negative. Beyond 2^53 the engine prints the
    shortest digits that read back as the same double, and from 1e21 on the
    exponent form; what this function gives there is not what the engine
    prints. *)
Definition numberToString (n : Z) : string := NilZero.string_of_int (Z.to_int n).

(** *** Backtracking regular expressions

    The patterns of the classifier use literals, character classes, greedy and
    lazy repetition of one class, alternation, capture groups and the end
    anchor. The matcher is the continuation-passing one of the language
    definition: a pattern receives the input left, the number of code units
    consumed since the start of the input and the captures so far, and calls
    its continuation on each way to match, in priority order. *)

Inductive regex : Type :=
  | Lit (s : string)
  | Class (p : ascii -> bool)
  | Star (greedy : bool) (p : ascii -> bool)
  | Cat (a b : regex)
  | Alt (a b : regex)
  | Group (i : nat) (a : regex)
  | Eos.

Definition Plus (greedy : bool) (p : ascii -> bool) : regex :=
  Cat (Class p) (Star greedy p).

Definition Opt (a : regex) : regex := Alt a (Lit "").

Record MatchState : Type := mkState {
  rest : string;
  endIndex : nat;
  groups : list (nat * string)
}.

Definition Continuation : Type := MatchState -> option MatchState.

Fixpoint starGreedy (p : ascii -> bool) (s : string) (e : nat)
    (k : string -> nat -> option MatchState) : option MatchState :=
  match s with
  | String c s' =>
      if p c then
        match starGreedy p s' (S e) k with
        | Some r => Some r
        | None => k s e
        end
      else k s e
  | EmptyString => k s e
  end.

Fixpoint starLazy (p : ascii -> bool) (s : string) (e : nat)
    (k : string -> nat -> option MatchState) : option MatchState :=
  match k s e with
  | Some r => Some r
  | None =>
      match s with
      | String c s' => if p c then starLazy p s' (S e) k else None
      | EmptyString => None
      end
  end.

Fixpoint exec (input : string) (r : regex) (x : MatchState) (k : Continuation)
    : option MatchState :=
  match r with
  | Lit l =>
      match stripPrefix l (rest x) with
      | Some s' => k (mkState s' (endIndex x + String.length l) (groups x))
      | None => None
      end
  | Class p =>
      match rest x with
      | String c s' => if p c then k (mkState s' (S (endIndex x)) (groups x)) else None
      | EmptyString => None
      end
  | Star greedy p =>
      (if greedy then starGreedy else starLazy) p (rest x) (endIndex x)
        (fun s' e' => k (mkState s' e' (groups x)))
  | Cat a b => exec input a x (fun y => exec input b y k)
  | Alt a b =>
      match exec input a x k with
      | Some r => Some r
      | None => exec input b x k
      end
  | Group i a =>
      exec input a x (fun y =>
        k (mkState (rest y) (endIndex y)
             ((i, slice (endIndex x) (endIndex y - endIndex x) input) :: groups y)))
  | Eos =>
      match rest x with
      | EmptyString => k x
      | _ => None
      end
  end.

(** One match of [String.prototype.match] without the [g] flag: where it
    starts, where it ends and what the groups captured. *)
Record MatchResult : Type := mkResult {
  index : nat;
  lastIndex : nat;
  captured : list (nat * string)
}.

Fixpoint searchFrom (input : string) (r : regex) (s : string) (i : nat)
    : option MatchResult :=
  match exec input r (mkState s i []) Some with
  | Some y => Some (mkResult i (endIndex y) (groups y))
  | None =>
      match s with
      | String _ s' => searchFrom input r s' (S i)
      | EmptyString => None
      end
  end.

Definition search (r : regex) (input : string) : option MatchResult :=
  searchFrom input r input 0.

(** [m[i]] of a successful match. *)
Fixpoint group (i : nat) (gs : list (nat * string)) : string :=
  match gs with
  | (j, s) :: gs' => if Nat.eqb i j then s else group i gs'
  | [] => EmptyString
  end.

(** [text.match(r)] reduced to its group 1, for the patterns that have one. *)
Definition match1 (r : regex) (input : string) : option string :=
  match search r input with
  | Some m => Some (group 1 (captured m))
  | None => None
  end.

(** [s.replace(r, '')]: the first match is cut out. *)
Definition replaceFirst (r : regex) (input : string) : string :=
  match search r input with
  | Some m =>
      slice 0 (index m) input +:+
      slice (lastIndex m) (String.length input - lastIndex m) input
  | None => input
  end.

End Js.

(** ** Values of type [any] *)

Local Set Warnings "-register-all".

Inductive json : Type :=
  | JNull
  | JBool (b : bool)
  | JNum (n : Z)
  | JStr (s : string)
  | JArr (items : list json)
  | JObj (props : list (string * json)).

Module Value.

Import Js.

(** [ToBoolean]. *)
Definition truthy (v : json) : bool :=
  match v with
  | JNull => false
  | JBool b => b
  | JNum n => negb (n =? 0)
  | JStr s => negb (String.eqb s "")
  | JArr _ | JObj _ => true
  end.

Definition truthyOpt (v : option json) : bool :=
  match v with Some x => truthy x | None => false end.

(** [typeof v === 'object']. *)
Definition isObjectType (v : json) : bool :=
  match v with
  | JNull | JArr _ | JObj _ => true
  | JBool _ | JNum _ | JStr _ => false
  end.

Definition isArray (v : json) : bool :=
  match v with JArr _ => true | _ => false end.

Fixpoint assoc (k : string) (ps : list (string * json)) : option json :=
  match ps with
  | (k', v) :: ps' => if String.eqb k k' then Some v else assoc k ps'
  | [] => None
  end.

Definition hasOwn (k : string) (ps : list (string * json)) : bool :=
  match assoc k ps with Some _ => true | None => false end.

(** [v.k] on a value other than [null], for a key that no prototype defines:
    every key the modules below read is such a key. *)
Definition get (v : json) (k : string) : option json :=
  match v with
  | JObj ps => assoc k ps
  | _ => None
  end.

(** [a ?? b] and [a || b]. *)
Definition nullish (v : option json) : bool :=
  match v with
  | None | Some JNull => true
  | Some _ => false
  end.

Definition coalesce (a b : option json) : option json :=
  if nullish a then b else a.

Definition orElse (a : option json) (b : json) : json :=
  match a with
  | Some x => if truthy x then x else b
  | None => b
  end.

Fixpoint join (sep : string) (l : list string) : string :=
  match l with
  | [] => ""
  | [s] => s
  | s :: l' => s +:+ sep +:+ join sep l'
  end.

(** [String(v)]. An object converts through its [toString]; a parsed object
    that has a property of that name has a value there, never a function, and
    [valueOf] then gives no primitive either: the conversion throws a
    TypeError. An array converts through [join], which converts every element
    other than [null]. *)
Fixpoint ToString (v : json) : option string :=
  match v with
  | JNull => Some "null"
  | JBool true => Some "true"
  | JBool false => Some "false"
  | JNum n => Some (numberToString n)
  | JStr s => Some s
  | JArr items =>
      let fix elements (l : list json) : option (list string) :=
        match l with
        | [] => Some []
        | x :: l' =>
            match (match x with JNull => Some "" | _ => ToString x end) with
            | Some s =>
                match elements l' with
                | Some ss => Some (s :: ss)
                | None => None
                end
            | None => None
            end
        end in
      match elements items with
      | Some ss => Some (join "," ss)
      | None => None
      end
  | JObj ps => if hasOwn "toString" ps then None else Some "[object Object]"
  end.

Definition String_ (v : option json) : option string :=
  match v with
  | Some x => ToString x
  | None => Some "undefined"
  end.

(** [JSON.stringify(v)] without indentation. *)
Definition hexDigit (n : N) : ascii :=
  ascii_of_N (if (n <? 10)%N then 48 + n else 87 + n)%N.

Definition quoteChar (c : ascii) : string :=
  match code c with
  | 8%N => "\b"
  | 9%N => "\t"
  | 10%N => "\n"
  | 12%N => "\f"
  | 13%N => "\r"
  | 34%N => String "\" DQ
  | 92%N => "\\"
  | n =>
      if (n <? 32)%N
      then "\u00" +:+ String (hexDigit (n / 16)) (String (hexDigit (n mod 16)) "")
      else String c ""
  end.

Definition quote (s : string) : string :=
  DQ +:+ String.concat "" (map quoteChar (list_ascii_of_string s)) +:+ DQ.

Fixpoint stringify (v : json) : string :=
  match v with
  | JNull => "null"
  | JBool true => "true"
  | JBool false => "false"
  | JNum n => numberToString n
  | JStr s => quote s
  | JArr items =>
      let fix elements (l : list json) : list string :=
        match l with
        | [] => []
        | x :: l' => stringify x :: elements l'
        end in
      "[" +:+ join "," (elements items) +:+ "]"
  | JObj ps =>
      let fix members (l : list (string * json)) : list string :=
        match l with
        | [] => []
        | (k, x) :: l' => (quote k +:+ ":" +:+ stringify x) :: members l'
        end in
      "{" +:+ join "," (members ps) +:+ "}"
  end.

End Value.

(** ** The block model ([models/ContentBlock]) *)

(** What reading [INTERRUPT_MESSAGES[text]] can give: a label of the table, or
    a member that the table, an object literal, inherits from
    [Object.prototype]. *)
Inductive member : Type :=
  | Own (label : string)
  | Inherited (name : string).

Record DiagnosticsEntry : Type := {
  entryFilePath : json;
  entryLine : json;
  entryColumn : json;
  entryMessage : json;
  entryCode : json;
  entrySeverity : json
}.

Record SelectionBlock : Type := {
  filePath : string;
  label : string;
  startLine : option Z;
  endLine : option Z;
  selectedText : option string
}.

Inductive ContentBlockType : Type :=
  | Text (text : string) (isSlashCommand : option bool)
  | Thinking (thinking : string)
  | Image (source : option json)
  | Document (title source : option json)
  | Interrupt (message : string) (friendlyMessage : member)
  | Selection (block : SelectionBlock)
  | OpenedFile (filePath label : string)
  | Diagnostics (diagnostics : list DiagnosticsEntry)
  | SlashCommandResult (result : string) (isError : bool)
  | ToolUse (props : list (string * json)) (toolResult : option json)
  | ToolResult (tool_use_id content is_error : option json).

(** ** The classifier ([parseMessageContent]) *)

Module Parser.

Import Js Value.

Local Infix "~>" := Cat (at level 60, right associativity).

Definition objectPrototypeKeys : list string :=
  [ "constructor"; "__defineGetter__"; "__defineSetter__"; "hasOwnProperty";
    "__lookupGetter__"; "__lookupSetter__"; "isPrototypeOf";
    "propertyIsEnumerable"; "toString"; "valueOf"; "__proto__";
    "toLocaleString" ].

Definition INTERRUPT_MESSAGES (key : string) : option member :=
  if String.eqb key "[Request interrupted by user]" then Some (Own "Interrupted")
  else if String.eqb key "[Request interrupted by user for tool use]"
  then Some (Own "Tool interrupted")
  else if existsb (String.eqb key) objectPrototypeKeys then Some (Inherited key)
  else None.

Definition TOOL_REJECTION_MARKER : string :=
  "The user doesn't want to proceed with this tool use. The tool use was rejected (eg. if it was a file edit, the new_string was NOT written to the file). STOP what you are doing and wait for the user to tell you how to proceed.".

Definition TOOL_REJECTION_PREFIX : string :=
  "The user doesn't want to proceed with this tool use. The tool use was rejected (eg. if it was a file edit, the new_string was NOT written to the file). The user provided the following reason for the rejection: ".

Definition createTextBlock (text : string) : ContentBlockType := Text text None.

Definition createThinkingBlock (thinking : string) : ContentBlockType :=
  Thinking thinking.

Definition createImageBlock (raw : json) : ContentBlockType :=
  Image (get raw "source").

Definition createDocumentBlock (raw : json) : ContentBlockType :=
  Document (get raw "title") (get raw "source").

(** [{ ...raw, toolResult: undefined }]: the own properties of [raw], the one
    named [toolResult] overwritten by [undefined]. *)
Definition createToolUseBlock (raw : json) : ContentBlockType :=
  match raw with
  | JObj ps => ToolUse (filter (fun p => negb (String.eqb (fst p) "toolResult")) ps) None
  | _ => ToolUse [] None
  end.

Definition createToolResultBlock (raw : json) : ContentBlockType :=
  ToolResult (get raw "tool_use_id") (get raw "content") (get raw "is_error").

(** [/from ([^:]+):/] *)
Definition reFile : regex :=
  Lit "from " ~> Group 1 (Plus true (notChar ":")) ~> Lit ":".

(** [/lines (\d+) to (\d+)/] *)
Definition reLines : regex :=
  Lit "lines " ~> Group 1 (Plus true isDigit) ~> Lit " to " ~> Group 2 (Plus true isDigit).

(** [/line (\d+)/] *)
Definition reLine : regex :=
  Lit "line " ~> Group 1 (Plus true isDigit).

(** [/from [^:]+:\s*([\s\S]*?)\n+\s*This may or may not be related/] *)
Definition reSnippet : regex :=
  Lit "from " ~> Plus true (notChar ":") ~> Lit ":" ~> Star true isWhiteSpace ~>
  Group 1 (Star false anyChar) ~> Plus true (Ascii.eqb "010") ~>
  Star true isWhiteSpace ~> Lit "This may or may not be related".

(** [/\s*$/] *)
Definition reTrailingSpace : regex := Star true isWhiteSpace ~> Eos.

(** [/(?:opened the file|opened file) (.+?) in (?:the )?(?:IDE|editor)/] *)
Definition reOpened : regex :=
  Alt (Lit "opened the file") (Lit "opened file") ~> Lit " " ~>
  Group 1 (Plus false dot) ~> Lit " in " ~> Opt (Lit "the ") ~>
  Alt (Lit "IDE") (Lit "editor").

(** [/<tag>([\s\S]*?)<\/tag>/] *)
Definition reTag (tag : string) : regex :=
  Lit ("<" +:+ tag +:+ ">") ~> Group 1 (Star false anyChar) ~> Lit ("</" +:+ tag +:+ ">").

Definition parseSelection (text : string) : option ContentBlockType :=
  match search reFile text with
  | None => None
  | Some fileMatch =>
      let filePath := group 1 (captured fileMatch) in
      let fileName :=
        let last := lastSegment filePath in
        if String.eqb last "" then filePath else last in
      let '(startLine, endLine) :=
        match search reLines text with
        | Some linesMatch =>
            (Some (parseInt (group 1 (captured linesMatch))),
             Some (parseInt (group 2 (captured linesMatch))))
        | None =>
            match search reLine text with
            | Some singleLineMatch =>
                (Some (parseInt (group 1 (captured singleLineMatch))), None)
            | None => (None, None)
            end
        end in
      let truthyNumber (n : option Z) :=
        match n with Some x => negb (x =? 0) | None => false end in
      let show (n : option Z) :=
        match n with Some x => numberToString x | None => "undefined" end in
      let label :=
        if truthyNumber startLine && truthyNumber endLine
        then fileName +:+ "#" +:+ show startLine +:+ "-" +:+ show endLine
        else if truthyNumber startLine
        then fileName +:+ "#" +:+ show startLine
        else fileName in
      let selectedText :=
        match search reSnippet text with
        | Some snippetMatch =>
            Some (replaceFirst reTrailingSpace (group 1 (captured snippetMatch)))
        | None => None
        end in
      Some (Selection {| filePath := filePath; label := label;
                         startLine := startLine; endLine := endLine;
                         selectedText := selectedText |})
  end.

Definition parseOpenedFile (text : string) : option ContentBlockType :=
  match search reOpened text with
  | None => None
  | Some m =>
      let filePath := group 1 (captured m) in
      let last := lastSegment filePath in
      Some (OpenedFile filePath (if String.eqb last "" then filePath else last))
  end.

Definition parseSlashCommandResult (text : string) : option ContentBlockType :=
  match match1 (reTag "local-command-stderr") text with
  | Some err => Some (SlashCommandResult (trim err) true)
  | None =>
      match match1 (reTag "local-command-stdout") text with
      | Some out => Some (SlashCommandResult (trim out) false)
      | None => None
      end
  end.

Definition parseSlashCommandText (text : string) : option string :=
  match match1 (reTag "command-name") text with
  | None => None
  | Some name =>
      let command := trim name in
      let args :=
        match match1 (reTag "command-args") text with
        | Some a => trim a
        | None => ""
        end in
      Some (trim (command +:+ " " +:+ args))
  end.

(** The callback of [parsed.map]: reading a property of [null] throws. *)
Definition toEntry (entry : json) : option DiagnosticsEntry :=
  match entry with
  | JNull => None
  | _ =>
      Some {| entryFilePath := orElse (get entry "filePath") (JStr "");
              entryLine := orElse (get entry "line") (JNum 0);
              entryColumn := orElse (get entry "column") (JNum 0);
              entryMessage := orElse (get entry "message") (JStr "");
              entryCode := orElse (get entry "code") (JStr "");
              entrySeverity := orElse (get entry "severity") (JStr "") |}
  end.

Section WithEngine.

(** [JSON.parse] of the engine; [None] is its SyntaxError. *)
Variable JSON_parse : string -> option json.

Definition parseDiagnostics (text : string) : option ContentBlockType :=
  match match1 (reTag "post-tool-use-hook") text with
  | None => None
  | Some hook =>
      match match1 (reTag "ide_diagnostics") hook with
      | None => None
      | Some body =>
          (* try *)
          match JSON_parse body with
          | Some (JArr parsed) =>
              match mapM toEntry parsed with
              | Some diagnostics => Some (Diagnostics diagnostics)
              | None => (* catch *) None
              end
          | Some _ => None
          | None => (* catch *) None
          end
      end
  end.

Definition isRejection (text : string) : bool :=
  String.eqb text TOOL_REJECTION_MARKER || startsWith text TOOL_REJECTION_PREFIX.

(** The tail of [parseTextBlock], from the slash-command rule on. *)
Definition parseTextTail (text : string) : list ContentBlockType :=
  match parseSlashCommandText text with
  | Some slashCommandText =>
      if negb (String.eqb slashCommandText "")
      then [Text slashCommandText (Some true)]
      else if isRejection text then [] else [createTextBlock text]
  | None => if isRejection text then [] else [createTextBlock text]
  end.

(** [if (text.includes(marker)) { const b = rule(text); if (b) return [b]; }] *)
Definition tryRule (present : bool) (rule : string -> option ContentBlockType)
    (text : string) (next : list ContentBlockType) : list ContentBlockType :=
  if present then
    match rule text with
    | Some b => [b]
    | None => next
    end
  else next.

Definition parseTextBlock (text : string) : list ContentBlockType :=
  match INTERRUPT_MESSAGES text with
  | Some friendly => [Interrupt text friendly]
  | None =>
      tryRule (includes text "<ide_selection>") parseSelection text (
      tryRule (includes text "<ide_opened_file>") parseOpenedFile text (
      tryRule (includes text "<local-command-stderr>" || includes text "<local-command-stdout>")
        parseSlashCommandResult text (
      tryRule (includes text "<post-tool-use-hook>") parseDiagnostics text (
      parseTextTail text))))
  end.

(** [raw.type === tag], the comparison of each [case] of the [switch]. *)
Definition hasType (raw : json) (tag : string) : bool :=
  match get raw "type" with
  | Some (JStr t) => String.eqb t tag
  | _ => false
  end.

Definition parseBlock (raw : json) : option (list ContentBlockType) :=
  if negb (truthy raw) || negb (isObjectType raw) then
    s ← String_ (coalesce (Some raw) (Some (JStr "")));
    Some [createTextBlock s]
  else if hasType raw "text" then
    s ← String_ (coalesce (coalesce (get raw "text") (get raw "value")) (Some (JStr "")));
    Some (parseTextBlock s)
  else if hasType raw "thinking" then
    s ← String_ (coalesce (get raw "thinking") (Some (JStr "")));
    Some [createThinkingBlock s]
  else if hasType raw "redacted_thinking" then Some []
  else if hasType raw "image" then Some [createImageBlock raw]
  else if hasType raw "document" then Some [createDocumentBlock raw]
  else if hasType raw "tool_use" then Some [createToolUseBlock raw]
  else if hasType raw "tool_result" then Some [createToolResultBlock raw]
  else Some [createTextBlock (stringify raw)].

(** [for (const raw of rawContent ?? []) blocks.push(...parseBlock(raw))] *)
Fixpoint parseFragments (rawContent : list json) (blocks : list ContentBlockType)
    : option (list ContentBlockType) :=
  match rawContent with
  | [] => Some blocks
  | raw :: rawContent' =>
      match parseBlock raw with
      | Some parsed => parseFragments rawContent' (blocks ++ parsed)
      | None => None
      end
  end.

Definition parseMessageContent (rawContent : option (list json))
    : option (list ContentBlockType) :=
  parseFragments (match rawContent with Some l => l | None => [] end) [].

(** *** Vocabulary of the properties *)

Definition isSome {A : Type} (o : option A) : bool :=
  match o with Some _ => true | None => false end.

Definition isDiagnostics (b : ContentBlockType) : bool :=
  match b with Diagnostics _ => true | _ => false end.

(** The body of the first [<ide_diagnostics>] tag inside the first
    [<post-tool-use-hook>] tag: what [parseDiagnostics] hands to [JSON.parse]. *)
Definition diagnosticsBody (text : string) : option string :=
  match match1 (reTag "post-tool-use-hook") text with
  | Some hook => match1 (reTag "ide_diagnostics") hook
  | None => None
  end.

(** A rule placed before the diagnostics rule returns a block for [text]. *)
Definition ruleBeforeDiagnostics (text : string) : bool :=
  isSome (INTERRUPT_MESSAGES text)
  || (includes text "<ide_selection>" && isSome (parseSelection text))
  || (includes text "<ide_opened_file>" && isSome (parseOpenedFile text))
  || ((includes text "<local-command-stderr>" || includes text "<local-command-stdout>")
      && isSome (parseSlashCommandResult text)).

(** A rule placed before the rejection test returns a block for [text]. *)
Definition ruleBeforeRejection (text : string) : bool :=
  ruleBeforeDiagnostics text
  || (includes text "<post-tool-use-hook>" && isSome (parseDiagnostics text))
  || match parseSlashCommandText text with
     | Some slashCommandText => negb (String.eqb slashCommandText "")
     | None => false
     end.

(** The arguments of the two [String(...)] calls of [parseBlock] on an object
    convert, so that neither call throws. *)
Definition convertible (raw : json) : bool :=
  if hasType raw "text" then
    isSome (String_ (coalesce (coalesce (get raw "text") (get raw "value")) (Some (JStr ""))))
  else if hasType raw "thinking" then
    isSome (String_ (coalesce (get raw "thinking") (Some (JStr ""))))
  else true.

Definition recognizedTypes : list string :=
  [ "text"; "thinking"; "redacted_thinking"; "image"; "document"; "tool_use";
    "tool_result" ].

(** A non-null object or array that reaches the [default] of the [switch]. *)
Definition unrecognized (raw : json) : bool :=
  truthy raw && isObjectType raw && negb (existsb (hasType raw) recognizedTypes).

(** A text that is one of the two tool-rejection notices and reaches the
    rejection test. *)
Definition silentText (text : string) : bool :=
  isRejection text && negb (ruleBeforeRejection text).

(** The fragments for which no block is made. *)
Definition silent (raw : json) : bool :=
  truthy raw && isObjectType raw &&
  (hasType raw "redacted_thinking"
   || (hasType raw "text" &&
       match String_ (coalesce (coalesce (get raw "text") (get raw "value")) (Some (JStr ""))) with
       | Some text => silentText text
       | None => false
       end)).

End WithEngine.

(** A text fragment [{ type: 'text', text }]. *)
Definition textFragment (text : string) : json :=
  JObj [("type", JStr "text"); ("text", JStr text)].

End Parser.

(** ** A reference [JSON.parse]

    The classifier takes the parser of the engine as a parameter; this one
    instantiates it where a concrete run is wanted. It reads the JSON grammar
    with integer numerals and code units below 256, and a text outside that
    is refused like a malformed one; it stands for the parser of the engine
    on texts whose numerals are safe integers, and is used on such texts
    only. *)

Module JsonText.

Import Js.

Fixpoint skipWs (s : string) : string :=
  match s with
  | String c s' =>
      match code c with
      | 9%N | 10%N | 13%N | 32%N => skipWs s'
      | _ => s
      end
  | EmptyString => s
  end.

Definition hexValue (c : ascii) : option N :=
  let n := code c in
  if isDigit c then Some (n - 48)%N
  else if (97 <=? n)%N && (n <=? 102)%N then Some (n - 87)%N
  else if (65 <=? n)%N && (n <=? 70)%N then Some (n - 55)%N
  else None.

(** The characters of a string literal, after its opening quote. *)
Fixpoint chars (s : string) : option (string * string) :=
  match s with
  | EmptyString => None
  | String c s' =>
      match code c with
      | 34%N => Some (EmptyString, s')
      | 92%N =>
          match s' with
          | String e s'' =>
              let plain (x : N) :=
                match chars s'' with
                | Some (t, r) => Some (String (ascii_of_N x) t, r)
                | None => None
                end in
              match code e with
              | 34%N => plain 34%N
              | 92%N => plain 92%N
              | 47%N => plain 47%N
              | 98%N => plain 8%N
              | 102%N => plain 12%N
              | 110%N => plain 10%N
              | 114%N => plain 13%N
              | 116%N => plain 9%N
              | 117%N =>
                  match s'' with
                  | String a (String b (String h (String l u))) =>
                      match hexValue a, hexValue b, hexValue h, hexValue l with
                      | Some 0%N, Some 0%N, Some x, Some y =>
                          match chars u with
                          | Some (t, r) => Some (String (ascii_of_N (16 * x + y)) t, r)
                          | None => None
                          end
                      | _, _, _, _ => None
                      end
                  | _ => None
                  end
              | _ => None
              end
          | EmptyString => None
          end
      | n =>
          if (n <? 32)%N then None
          else
            match chars s' with
            | Some (t, r) => Some (String c t, r)
            | None => None
            end
      end
  end.

Fixpoint digits (s : string) : string * string :=
  match s with
  | String c s' =>
      if isDigit c then let '(d, r) := digits s' in (String c d, r) else (EmptyString, s)
  | EmptyString => (EmptyString, s)
  end.

(** An optional minus sign and an integer part without leading zero, not
    followed by a fraction or an exponent. *)
Definition number (s : string) : option (Z * string) :=
  let '(negative, s1) :=
    match s with
    | String "-" s' => (true, s')
    | _ => (false, s)
    end in
  let '(d, r) := digits s1 in
  let wellFormed :=
    match d with
    | EmptyString => false
    | String "0" (String _ _) => false
    | _ => true
    end in
  let continued :=
    match r with
    | String "." _ | String "e" _ | String "E" _ => true
    | _ => false
    end in
  if wellFormed && negb continued
  then Some ((if negative then - parseInt d else parseInt d), r)
  else None.

Fixpoint value (fuel : nat) (s : string) {struct fuel} : option (json * string) :=
  match fuel with
  | O => None
  | S fuel' =>
      match skipWs s with
      | String "{" s1 =>
          match skipWs s1 with
          | String "}" s2 => Some (JObj [], skipWs s2)
          | s2 =>
              match members fuel' s2 with
              | Some (ps, r) => Some (JObj ps, skipWs r)
              | None => None
              end
          end
      | String "[" s1 =>
          match skipWs s1 with
          | String "]" s2 => Some (JArr [], skipWs s2)
          | s2 =>
              match elements fuel' s2 with
              | Some (vs, r) => Some (JArr vs, skipWs r)
              | None => None
              end
          end
      | s1 =>
          match stripPrefix DQ s1, stripPrefix "true" s1, stripPrefix "false" s1, stripPrefix "null" s1 with
          | Some r, _, _, _ =>
              match chars r with
              | Some (t, r') => Some (JStr t, skipWs r')
              | None => None
              end
          | _, Some r, _, _ => Some (JBool true, skipWs r)
          | _, _, Some r, _ => Some (JBool false, skipWs r)
          | _, _, _, Some r => Some (JNull, skipWs r)
          | None, None, None, None =>
              match number s1 with
              | Some (n, r) => Some (JNum n, skipWs r)
              | None => None
              end
          end
      end
  end
with elements (fuel : nat) (s : string) {struct fuel} : option (list json * string) :=
  match fuel with
  | O => None
  | S fuel' =>
      match value fuel' s with
      | Some (v, String "," r) =>
          match elements fuel' r with
          | Some (vs, r') => Some (v :: vs, r')
          | None => None
          end
      | Some (v, String "]" r) => Some ([v], r)
      | _ => None
      end
  end
with members (fuel : nat) (s : string) {struct fuel}
    : option (list (string * json) * string) :=
  match fuel with
  | O => None
  | S fuel' =>
      match stripPrefix DQ (skipWs s) with
      | Some s1 =>
          match chars s1 with
          | Some (k, r) =>
              match skipWs r with
              | String ":" r1 =>
                  match value fuel' r1 with
                  | Some (v, String "," r2) =>
                      match members fuel' r2 with
                      | Some (ps, r') => Some ((k, v) :: ps, r')
                      | None => None
                      end
                  | Some (v, String "}" r2) => Some ([(k, v)], r2)
                  | _ => None
                  end
              | _ => None
              end
          | None => None
          end
      | None => None
      end
  end.

(** A repeated key keeps the place of its first occurrence and the value of
    its last one, as the object under construction does. *)
Fixpoint define (k : string) (v : json) (ps : list (string * json))
    : list (string * json) :=
  match ps with
  | [] => [(k, v)]
  | (k', v') :: ps' => if String.eqb k k' then (k, v) :: ps' else (k', v') :: define k v ps'
  end.

(** The engine enumerates the keys that are array indices first, in
    ascending order, and the other keys in the order of their creation. *)
Definition isIndexKey (k : string) : bool :=
  match digits k with
  | (String "0" EmptyString, EmptyString) => true
  | (String "0" _, _) => false
  | (String _ _, EmptyString) => parseInt k <? 4294967295
  | _ => false
  end.

Fixpoint insertIndex (k : string) (v : json) (ps : list (string * json))
    : list (string * json) :=
  match ps with
  | [] => [(k, v)]
  | (k', v') :: ps' =>
      if parseInt k <? parseInt k' then (k, v) :: ps
      else (k', v') :: insertIndex k v ps'
  end.

Definition ownKeysOrder (ps : list (string * json)) : list (string * json) :=
  fold_right (fun p acc => insertIndex (fst p) (snd p) acc) []
    (List.filter (fun p => isIndexKey (fst p)) ps)
  ++ List.filter (fun p => negb (isIndexKey (fst p))) ps.

Fixpoint normalize (v : json) : json :=
  match v with
  | JArr items =>
      let fix each (l : list json) : list json :=
        match l with
        | [] => []
        | x :: l' => normalize x :: each l'
        end in
      JArr (each items)
  | JObj ps =>
      let fix build (l : list (string * json)) (acc : list (string * json)) :=
        match l with
        | [] => acc
        | (k, x) :: l' => build l' (define k (normalize x) acc)
        end in
      JObj (ownKeysOrder (build ps []))
  | _ => v
  end.

Definition parse (text : string) : option json :=
  match value (2 * String.length text + 2) text with
  | Some (v, EmptyString) => Some (normalize v)
  | _ => None
  end.

End JsonText.

(** ** The selection state ([services/selectionState]) *)

Module SelectionState.

Import Js.

(** Modelled from the spec: the type [SelectionRange] of [shared/messages],
    whose declaration is not among the sources: "filePath, startLine, endLine,
    startColumn, endColumn, selectedText, optional autoInclude flag". The two
    columns may be absent, as [serialize] provides for. *)
Record SelectionRange : Type := {
  filePath : string;
  startLine : Z;
  endLine : Z;
  startColumn : option Z;
  endColumn : option Z;
  selectedText : string;
  autoInclude : option bool
}.

Record State : Type := {
  lastSelection : option SelectionRange;
  lastSignature : option string;
  pendingAutoInclude : bool;
  pendingSignature : option string
}.

(** [new SelectionState()] *)
Definition initial : State :=
  {| lastSelection := None; lastSignature := None;
     pendingAutoInclude := false; pendingSignature := None |}.

Definition serialize (selection : SelectionRange) : string :=
  let column (c : option Z) := numberToString (default 0 c) in
  filePath selection +:+ ":" +:+ numberToString (startLine selection) +:+ ":" +:+
  numberToString (endLine selection) +:+ ":" +:+ column (startColumn selection) +:+ ":" +:+
  column (endColumn selection) +:+ ":" +:+ selectedText selection.

Definition signatureEq (a b : option string) : bool :=
  match a, b with
  | Some x, Some y => String.eqb x y
  | None, None => true
  | _, _ => false
  end.

(** [set(selection, options)]; the second argument is [options?.autoInclude]. *)
Definition set (selection : option SelectionRange) (optAutoInclude : option bool)
    (this : State) : State :=
  let given := match selection with Some _ => true | None => false end in
  let this1 :=
    match selection with
    | Some sel =>
        {| lastSelection := Some sel; lastSignature := Some (serialize sel);
           pendingAutoInclude := pendingAutoInclude this;
           pendingSignature := pendingSignature this |}
    | None =>
        {| lastSelection := None; lastSignature := None;
           pendingAutoInclude := pendingAutoInclude this;
           pendingSignature := pendingSignature this |}
    end in
  if given && default false optAutoInclude then
    {| lastSelection := lastSelection this1; lastSignature := lastSignature this1;
       pendingAutoInclude := true; pendingSignature := lastSignature this1 |}
  else if negb given || negb (signatureEq (pendingSignature this1) (lastSignature this1)) then
    {| lastSelection := lastSelection this1; lastSignature := lastSignature this1;
       pendingAutoInclude := false; pendingSignature := None |}
  else this1.

Definition getSnapshot (this : State) : option SelectionRange :=
  lastSelection this.

Definition clearAutoInclude (this : State) : State :=
  {| lastSelection := lastSelection this; lastSignature := lastSignature this;
     pendingAutoInclude := false; pendingSignature := None |}.

(** [snapshot.autoInclude = true] *)
Definition stamp (snapshot : SelectionRange) : SelectionRange :=
  {| filePath := filePath snapshot; startLine := startLine snapshot;
     endLine := endLine snapshot; startColumn := startColumn snapshot;
     endColumn := endColumn snapshot; selectedText := selectedText snapshot;
     autoInclude := Some true |}.

Definition consume (this : State) : option SelectionRange * State :=
  match lastSelection this with
  | None => (None, this)
  | Some snapshot =>
      if pendingAutoInclude this
      then (Some (stamp snapshot),
            {| lastSelection := lastSelection this; lastSignature := lastSignature this;
               pendingAutoInclude := false; pendingSignature := None |})
      else (Some snapshot, this)
  end.

Definition hasPendingAutoInclude (this : State) : bool :=
  pendingAutoInclude this.

(** The calls a client can make on the singleton. *)
Inductive Call : Type :=
  | CallSet (selection : option SelectionRange) (optAutoInclude : option bool)
  | CallGetSnapshot
  | CallConsume
  | CallHasPendingAutoInclude
  | CallClearAutoInclude.

Definition call (c : Call) (this : State) : State :=
  match c with
  | CallSet selection optAutoInclude => set selection optAutoInclude this
  | CallGetSnapshot => this
  | CallConsume => snd (consume this)
  | CallHasPendingAutoInclude => this
  | CallClearAutoInclude => clearAutoInclude this
  end.

Definition run (cs : list Call) (this : State) : State :=
  fold_left (fun st c => call c st) cs this.

(** A pending auto-include has a selection to go with. *)
Definition consistent (this : State) : Prop :=
  hasPendingAutoInclude this = true -> is_Some (getSnapshot this).

End SelectionState.

(** ** The webview service ([services/webViewService]) *)

Module WebViewService.

Import Value.

Local Open Scope nat_scope.

(** A [vscode.Webview] is known by its identity. *)
Definition Webview : Type := nat.

Inductive WebviewHost : Type := sidebar | editor.

Record WebviewBootstrapConfig : Type := {
  host : WebviewHost;
  page : option string;
  id : option string
}.

Record Payload : Type := {
  type : string;
  message : json
}.

(** One call of [webview.postMessage(payload)] and whether it threw. *)
Record Post : Type := {
  target : Webview;
  payload : Payload;
  threw : bool
}.

(** The fields of the service, the [selectionState] singleton it clears, and
    the calls made on the webviews so far, oldest first. A [Set] is the list of
    its members in insertion order, which is the order of its iteration. *)
Record State : Type := {
  webviews : list Webview;
  readyWebviews : list Webview;
  webviewConfigs : gmap Webview WebviewBootstrapConfig;
  pendingMessages : list Payload;
  editorPanels : gmap string Webview;
  selectionState : SelectionState.State;
  posts : list Post
}.

Definition MAX_PENDING_MESSAGES : nat := 50.

(** [new WebViewService(context, logService)] *)
Definition initial : State :=
  {| webviews := []; readyWebviews := []; webviewConfigs := ∅;
     pendingMessages := []; editorPanels := ∅;
     selectionState := SelectionState.initial; posts := [] |}.

Definition has (w : Webview) (s : list Webview) : bool := bool_decide (w ∈ s).

Definition add (w : Webview) (s : list Webview) : list Webview :=
  if has w s then s else s ++ [w].

Definition remove (w : Webview) (s : list Webview) : list Webview :=
  List.filter (fun x => negb (Nat.eqb x w)) s.

(** [webviews.delete(w); readyWebviews.delete(w); webviewConfigs.delete(w)] *)
Definition forget (w : Webview) (this : State) : State :=
  {| webviews := remove w (webviews this);
     readyWebviews := remove w (readyWebviews this);
     webviewConfigs := delete w (webviewConfigs this);
     pendingMessages := pendingMessages this;
     editorPanels := editorPanels this;
     selectionState := selectionState this;
     posts := posts this |}.

(** The test that both loops make on the configuration of a webview, negated:
    [!config || config.host !== 'sidebar' || (config.page && config.page !== 'chat')]
    skips the webview. *)
Definition addressed (config : option WebviewBootstrapConfig) : bool :=
  match config with
  | None => false
  | Some c =>
      match host c with
      | editor => false
      | sidebar =>
          match page c with
          | Some p => String.eqb p "" || String.eqb p "chat"
          | None => true
          end
      end
  end.

Definition enqueuePendingMessage (m : json) (this : State) : State :=
  let pushed := pendingMessages this ++ [{| type := "from-extension"; message := m |}] in
  {| webviews := webviews this;
     readyWebviews := readyWebviews this;
     webviewConfigs := webviewConfigs this;
     pendingMessages :=
       if Nat.ltb MAX_PENDING_MESSAGES (length pushed) then tail pushed else pushed;
     editorPanels := editorPanels this;
     selectionState := selectionState this;
     posts := posts this |}.

(** [request && request.type === 'selection_changed' && request.selection?.autoInclude]
    on [payload?.message?.request]. *)
Definition announcesAutoInclude (p : Payload) : bool :=
  match get (message p) "request" with
  | Some request =>
      truthy request &&
      match get request "type" with
      | Some (JStr t) => String.eqb t "selection_changed"
      | _ => false
      end &&
      match get request "selection" with
      | Some selection => truthyOpt (get selection "autoInclude")
      | None => false
      end
  | None => false
  end.

Definition handleAutoIncludeDelivered (p : Payload) (this : State) : State :=
  if announcesAutoInclude p then
    {| webviews := webviews this;
       readyWebviews := readyWebviews this;
       webviewConfigs := webviewConfigs this;
       pendingMessages := pendingMessages this;
       editorPanels := editorPanels this;
       selectionState := SelectionState.clearAutoInclude (selectionState this);
       posts := posts this |}
  else this.

Definition record (c : Post) (this : State) : State :=
  {| webviews := webviews this;
     readyWebviews := readyWebviews this;
     webviewConfigs := webviewConfigs this;
     pendingMessages := pendingMessages this;
     editorPanels := editorPanels this;
     selectionState := selectionState this;
     posts := posts this ++ [c] |}.

(** *** Vocabulary of the properties *)

(** The payload that [postMessage] and [enqueuePendingMessage] build. *)
Definition wrap (m : json) : Payload := {| type := "from-extension"; message := m |}.

(** The webviews that a broadcast calls: ready, and addressed by their
    configuration. *)
Definition eligible (this : State) (w : Webview) : bool :=
  has w (readyWebviews this) && addressed (webviewConfigs this !! w).

Definition succeeded (c : Post) : bool := negb (threw c).

(** The state in which [markWebviewReady] calls [flushPendingMessages]. *)
Definition nowReady (w : Webview) (this : State) : State :=
  {| webviews := webviews this;
     readyWebviews := readyWebviews this ++ [w];
     webviewConfigs := webviewConfigs this;
     pendingMessages := pendingMessages this;
     editorPanels := editorPanels this;
     selectionState := selectionState this;
     posts := posts this |}.

(** The last [n] elements of [l]. *)
Definition lastN {A : Type} (n : nat) (l : list A) : list A :=
  skipn (length l - n) l.

(** The calls made on [t] among [cs]. *)
Definition callsTo (t : Webview) (cs : list Post) : list Post :=
  List.filter (fun c => Nat.eqb (target c) t) cs.

Section WithHost.

(** Whether the call of [webview.postMessage(payload)] that follows [n]
    earlier calls throws: the host decides. *)
Variable postMessageThrows : nat -> Webview -> Payload -> bool.

(** [try { webview.postMessage(payload); ... }]: the call, recorded, and
    whether it returned. *)
Definition send (w : Webview) (p : Payload) (this : State) : bool * State :=
  let failed := postMessageThrows (length (posts this)) w p in
  (negb failed, record {| target := w; payload := p; threw := failed |} this).

(** The loop of [postMessage] over [this.webviews]. *)
Fixpoint broadcast (p : Payload) (ws : list Webview) (delivered : bool)
    (toRemove : list Webview) (this : State) : bool * list Webview * State :=
  match ws with
  | [] => (delivered, toRemove, this)
  | w :: ws' =>
      if negb (has w (readyWebviews this)) then broadcast p ws' delivered toRemove this
      else if negb (addressed (webviewConfigs this !! w))
      then broadcast p ws' delivered toRemove this
      else
        match send w p this with
        | (true, this1) =>
            broadcast p ws' true toRemove (handleAutoIncludeDelivered p this1)
        | (false, this1) => broadcast p ws' delivered (toRemove ++ [w]) this1
        end
  end.

Definition postMessage (m : json) (this : State) : State :=
  if Nat.eqb (length (webviews this)) 0 then enqueuePendingMessage m this
  else
    let p := {| type := "from-extension"; message := m |} in
    let '(delivered, toRemove, this1) := broadcast p (webviews this) false [] this in
    let this2 := if negb delivered then enqueuePendingMessage m this1 else this1 in
    fold_left (fun st w => forget w st) toRemove this2.

(** The inner loop of [flushPendingMessages]: the queue replayed to one
    webview, up to the first call that throws. *)
Fixpoint replay (w : Webview) (ps : list Payload) (this : State) : State :=
  match ps with
  | [] => this
  | p :: ps' =>
      match send w p this with
      | (true, this1) => replay w ps' (handleAutoIncludeDelivered p this1)
      | (false, this1) => forget w this1
      end
  end.

(** The outer loop, over [this.readyWebviews]. *)
Fixpoint flushTo (ws : list Webview) (this : State) : State :=
  match ws with
  | [] => this
  | w :: ws' =>
      if negb (addressed (webviewConfigs this !! w)) then flushTo ws' this
      else flushTo ws' (replay w (pendingMessages this) this)
  end.

Definition flushPendingMessages (this : State) : State :=
  if Nat.eqb (length (readyWebviews this)) 0 || Nat.eqb (length (pendingMessages this)) 0
  then this
  else
    let this1 := flushTo (readyWebviews this) this in
    {| webviews := webviews this1;
       readyWebviews := readyWebviews this1;
       webviewConfigs := webviewConfigs this1;
       pendingMessages := [];
       editorPanels := editorPanels this1;
       selectionState := selectionState this1;
       posts := posts this1 |}.

Definition markWebviewReady (w : Webview) (this : State) : State :=
  if has w (readyWebviews this) then this
  else
    flushPendingMessages
      {| webviews := webviews this;
         readyWebviews := readyWebviews this ++ [w];
         webviewConfigs := webviewConfigs this;
         pendingMessages := pendingMessages this;
         editorPanels := editorPanels this;
         selectionState := selectionState this;
         posts := posts this |}.

(** [registerWebview], as far as the service keeps track of the webview. *)
Definition registerWebview (w : Webview) (bootstrap : WebviewBootstrapConfig)
    (this : State) : State :=
  {| webviews := add w (webviews this);
     readyWebviews := readyWebviews this;
     webviewConfigs := <[w := bootstrap]> (webviewConfigs this);
     pendingMessages := pendingMessages this;
     editorPanels := editorPanels this;
     selectionState := selectionState this;
     posts := posts this |}.

Definition resolveWebviewView (w : Webview) (this : State) : State :=
  registerWebview w {| host := sidebar; page := Some "chat"; id := None |} this.

(** [openEditorPage(page, title, instanceId)]; [revealThrows] is what
    [existing.reveal] does and [w] the webview of the panel that
    [createWebviewPanel] returns if it is called. *)
Definition openEditorPage (pageName : string) (instanceId : option string)
    (revealThrows : bool) (w : Webview) (this : State) : State :=
  let key :=
    match instanceId with
    | Some i => if String.eqb i "" then pageName else i
    | None => pageName
    end in
  let create (st : State) : State :=
    let st1 := registerWebview w {| host := editor; page := Some pageName; id := Some key |} st in
    {| webviews := webviews st1;
       readyWebviews := readyWebviews st1;
       webviewConfigs := webviewConfigs st1;
       pendingMessages := pendingMessages st1;
       editorPanels := <[key := w]> (editorPanels st1);
       selectionState := selectionState st1;
       posts := posts st1 |} in
  match editorPanels this !! key with
  | Some existing =>
      if revealThrows then
        create {| webviews := webviews this;
                  readyWebviews := readyWebviews this;
                  webviewConfigs := webviewConfigs this;
                  pendingMessages := pendingMessages this;
                  editorPanels := delete key (editorPanels this);
                  selectionState := selectionState this;
                  posts := posts this |}
      else this
  | None => create this
  end.

(** The [onDidDispose] listener of a panel opened under [key]. *)
Definition panelDisposed (key : string) (w : Webview) (this : State) : State :=
  let st := forget w this in
  {| webviews := webviews st;
     readyWebviews := readyWebviews st;
     webviewConfigs := webviewConfigs st;
     pendingMessages := pendingMessages st;
     editorPanels := delete key (editorPanels st);
     selectionState := selectionState st;
     posts := posts st |}.

(** What the host and the clients of the service can make it do. The
    listener of [onDidReceiveMessage] marks the webview ready and hands the
    message to the handler, which is not part of the service. *)
Inductive Event : Type :=
  | ResolveWebviewView (w : Webview)
  | ViewDisposed (w : Webview)
  | OpenEditorPage (pageName : string) (instanceId : option string)
      (revealThrows : bool) (w : Webview)
  | PanelDisposed (key : string) (w : Webview)
  | DidReceiveMessage (w : Webview)
  | PostMessage (m : json).

Definition step (e : Event) (this : State) : State :=
  match e with
  | ResolveWebviewView w => resolveWebviewView w this
  | ViewDisposed w => forget w this
  | OpenEditorPage pageName instanceId revealThrows w =>
      openEditorPage pageName instanceId revealThrows w this
  | PanelDisposed key w => panelDisposed key w this
  | DidReceiveMessage w => markWebviewReady w this
  | PostMessage m => postMessage m this
  end.

Definition run (es : list Event) (this : State) : State :=
  fold_left (fun st e => step e st) es this.

(** One call per webview, in order, the first after [n] earlier calls. *)
Fixpoint attempts (n : nat) (p : Payload) (ws : list Webview) : list Post :=
  match ws with
  | [] => []
  | w :: ws' =>
      {| target := w; payload := p; threw := postMessageThrows n w p |}
      :: attempts (S n) p ws'
  end.

(** The calls of one replay of [ps] to [w], the first after [n] earlier
    calls: they stop at the first one that throws. *)
Fixpoint replayCalls (n : nat) (w : Webview) (ps : list Payload) : list Post :=
  match ps with
  | [] => []
  | p :: ps' =>
      if postMessageThrows n w p
      then [{| target := w; payload := p; threw := true |}]
      else {| target := w; payload := p; threw := false |} :: replayCalls (S n) w ps'
  end.

End WithHost.

End WebViewService.

(** ** Inputs of the examples *)

Module Samples.

Import Js Value Parser.

(** The text of the selection example: the marker, the path phrase, the line
    phrase, two lines of code and the closing sentence. *)
Definition selectionExample : string :=
  "<ide_selection>from src/a.ts: lines 3 to 7" +:+ LF +:+ "foo" +:+ LF +:+ "bar"
  +:+ LF +:+ "   This may or may not be related".

Definition sampleContent : list json :=
  [ textFragment "hello"; JNull; JNum 7; JObj [("type", JStr "video")];
    JObj [("type", JStr "redacted_thinking")]; textFragment TOOL_REJECTION_MARKER ].

(** A rejection notice whose reason holds a command tag. *)
Definition rejectionWithCommand : string :=
  TOOL_REJECTION_PREFIX +:+ "<command-name>x</command-name>".

Definition malformedDiagnostics : string :=
  "<post-tool-use-hook><ide_diagnostics>[{oops</ide_diagnostics></post-tool-use-hook>".

(** A text fragment whose text is an object with a property named toString. *)
Definition shadowedToString : json :=
  JObj [("type", JStr "text"); ("text", JObj [("toString", JNum 1)])].

(** A selection that carries the auto-include flag itself. *)
Definition flagged : SelectionState.SelectionRange :=
  {| SelectionState.filePath := "src/a.ts";
     SelectionState.startLine := 3;
     SelectionState.endLine := 7;
     SelectionState.startColumn := Some 0;
     SelectionState.endColumn := Some 4;
     SelectionState.selectedText := "foo";
     SelectionState.autoInclude := Some true |}.

(** A host whose webviews accept every call. *)
Definition accepting (_ : nat) (_ : WebViewService.Webview) (_ : WebViewService.Payload)
    : bool := false.

(** Fifty-one messages, numbered from 0. *)
Definition numbered (n : nat) : list json :=
  map (fun i => JNum (Z.of_nat i)) (seq 0 n).

(** Two posts, then the sidebar view is resolved. *)
Definition twoQueued : list WebViewService.Event :=
  [ WebViewService.PostMessage (JNum 1); WebViewService.PostMessage (JNum 2);
    WebViewService.ResolveWebviewView 7%nat ].

End Samples.


(** ** The numbers that print as they are *)

Module Numbers.

(** [Number.MAX_SAFE_INTEGER], that is 2^53 - 1. *)
Definition MAX_SAFE_INTEGER : Z := 9007199254740991.

(** [Number.isSafeInteger(n)] on an integer: the engine holds [n] exactly and
    prints it digit for digit. *)
Definition isSafeInteger (n : Z) : bool := Z.abs n <=? MAX_SAFE_INTEGER.

(** Every number inside [v] is a safe integer. *)
Fixpoint safe (v : json) : bool :=
  match v with
  | JNum n => isSafeInteger n
  | JArr items => forallb safe items
  | JObj ps => forallb (fun '(_, x) => safe x) ps
  | JNull | JBool _ | JStr _ => true
  end.

End Numbers.

(** ** Vocabulary for texts and matches *)

Module Substring.

Import Js.

(** The text before and the text after the first occurrence of [p] in [s]:
    [s.indexOf(p)] and the two slices around it. *)
Fixpoint cut (p s : string) : option (string * string) :=
  match stripPrefix p s with
  | Some r => Some (EmptyString, r)
  | None =>
      match s with
      | String c s' =>
          match cut p s' with
          | Some (a, b) => Some (String c a, b)
          | None => None
          end
      | EmptyString => None
      end
  end.

(** The text between the first [opening] and the first [closing] after it. *)
Definition between (opening closing s : string) : option string :=
  match cut opening s with
  | Some (_, r) =>
      match cut closing r with
      | Some (body, _) => Some body
      | None => None
      end
  | None => None
  end.

(** Every code unit of [s] satisfies [p]. *)
Fixpoint all (p : ascii -> bool) (s : string) : bool :=
  match s with
  | String c s' => p c && all p s'
  | EmptyString => true
  end.

(** The last code unit of [s] is a white space. *)
Fixpoint endsWithSpace (s : string) : bool :=
  match s with
  | EmptyString => false
  | String c EmptyString => isWhiteSpace c
  | String _ s' => endsWithSpace s'
  end.

(** What a pattern matches, apart from the order in which the matcher tries:
    [matches r w after gs] when [r] matches the text [w] in front of [after]
    and its groups capture [gs], the last one first. *)
Inductive matches : regex -> string -> string -> list (nat * string) -> Prop :=
  | MLit l after : matches (Lit l) l after []
  | MClass (p : ascii -> bool) c after :
      p c = true -> matches (Class p) (String c EmptyString) after []
  | MStar greedy (p : ascii -> bool) w after :
      all p w = true -> matches (Star greedy p) w after []
  | MCat a b w1 w2 after g1 g2 :
      matches a w1 (w2 +:+ after) g1 -> matches b w2 after g2 ->
      matches (Cat a b) (w1 +:+ w2) after (g2 ++ g1)
  | MAltL a b w after g : matches a w after g -> matches (Alt a b) w after g
  | MAltR a b w after g : matches b w after g -> matches (Alt a b) w after g
  | MGroup i a w after g : matches a w after g -> matches (Group i a) w after ((i, w) :: g)
  | MEos : matches Eos EmptyString EmptyString [].

(** The state [x] of the matcher is at a position of [input]. *)
Definition positioned (input : string) (x : MatchState) : Prop :=
  exists before, input = before +:+ rest x /\ endIndex x = String.length before.

End Substring.

(** ** Vocabulary for the blocks *)

Module Blocks.

Import Js Value Parser.

(** The substrings that make [parseTextBlock] try a rule. *)
Definition markers : list string :=
  [ "<ide_selection>"; "<ide_opened_file>"; "<local-command-stderr>";
    "<local-command-stdout>"; "<post-tool-use-hook>"; "<command-name>" ].

(** The first code unit of [s] is a white space. *)
Definition startsWithSpace (s : string) : bool :=
  match s with
  | String c _ => isWhiteSpace c
  | EmptyString => false
  end.

(** A field of an entry holds a truthy value or the default of that field. *)
Definition filled (v fallback : json) : bool :=
  truthy v ||
  match v, fallback with
  | JStr a, JStr b => String.eqb a b
  | JNum a, JNum b => Z.eqb a b
  | _, _ => false
  end.

Definition populated (d : DiagnosticsEntry) : bool :=
  filled (entryFilePath d) (JStr "") && filled (entryLine d) (JNum 0)
  && filled (entryColumn d) (JNum 0) && filled (entryMessage d) (JStr "")
  && filled (entryCode d) (JStr "") && filled (entrySeverity d) (JStr "").

(** [s] ends with a slash. *)
Fixpoint endsWithSlash (s : string) : bool :=
  match s with
  | EmptyString => false
  | String c EmptyString => Ascii.eqb c "/"
  | String _ s' => endsWithSlash s'
  end.

(** [filePath.split('/').pop() || filePath], the name shown for a path. *)
Definition fileName (path : string) : string :=
  let last := lastSegment path in
  if String.eqb last "" then path else last.

(** [n] is absent or a number from 0 on. *)
Definition lineNumber (n : option Z) : bool :=
  match n with Some x => 0 <=? x | None => true end.

End Blocks.

(** ** Vocabulary for the selection state *)

Module SelectionTrace.

Import SelectionState.

(** The state is the one its fields describe: the signature is the one of
    the stored selection, and a pending signature stands for a pending
    auto-include, which is the one of the stored selection. *)
Definition coherent (this : State) : Prop :=
  lastSignature this = option_map serialize (lastSelection this) /\
  (pendingAutoInclude this = true ->
   pendingSignature this = lastSignature this /\ lastSignature this <> None) /\
  (pendingAutoInclude this = false -> pendingSignature this = None).

(** The stored selection has the signature of [selection]. *)
Definition sameSignature (selection : SelectionRange) (this : State) : bool :=
  match lastSelection this with
  | Some stored => String.eqb (serialize stored) (serialize selection)
  | None => false
  end.

(** What the calls of [consume] among [cs] return, in order. *)
Fixpoint consumed (cs : list Call) (this : State) : list (option SelectionRange) :=
  match cs with
  | [] => []
  | CallConsume :: cs' => fst (consume this) :: consumed cs' (snd (consume this))
  | c :: cs' => consumed cs' (call c this)
  end.

(** The selection carries the auto-include flag. *)
Definition marked (r : option SelectionRange) : bool :=
  match r with
  | Some selection =>
      match autoInclude selection with Some true => true | _ => false end
  | None => false
  end.

(** [set(selection, { autoInclude: true })] with a selection. *)
Definition requestsAutoInclude (c : Call) : bool :=
  match c with
  | CallSet (Some _) (Some true) => true
  | _ => false
  end.

(** A call that stores no selection with a flag of its own. *)
Definition storesUnmarked (c : Call) : bool :=
  match c with
  | CallSet selection _ => negb (marked selection)
  | _ => true
  end.

(** Two selections that differ and have one signature: the colon of a path
    is read as a separator. *)
Definition colonInPath : SelectionRange :=
  {| filePath := "a:1"; startLine := 2; endLine := 3; startColumn := Some 4;
     endColumn := Some 5; selectedText := "x"; autoInclude := None |}.

Definition colonInText : SelectionRange :=
  {| filePath := "a"; startLine := 1; endLine := 2; startColumn := Some 3;
     endColumn := Some 4; selectedText := "5:x"; autoInclude := None |}.

End SelectionTrace.

(** ** Vocabulary for the webview service *)

Module ServiceTrace.

Import WebViewService.

(** The webviews and the configurations of a state are those of the same
    webviews. *)
Definition tracked (this : State) : Prop :=
  forall w, In w (webviews this) <-> is_Some (webviewConfigs this !! w).

(** [instanceId || page], the key of a panel in [editorPanels]. *)
Definition panelKey (pageName : string) (instanceId : option string) : string :=
  match instanceId with
  | Some i => if String.eqb i "" then pageName else i
  | None => pageName
  end.

End ServiceTrace.

(** ** The selection sync of the extension entry point ([activate]) *)

Module Extension.

Import Js Value.

(** What [buildSelectionRange] reads of a [vscode.TextEditor]: the scheme and
    the path of the document, the two ends of the selection, whether it is
    empty, and the text it covers. *)
Record TextEditor : Type := {
  scheme : string;
  fsPath : string;
  startLineIndex : Z;
  startCharacter : Z;
  endLineIndex : Z;
  endCharacter : Z;
  isEmpty : bool;
  getText : string
}.

Definition isFile (editor : TextEditor) : bool := String.eqb (scheme editor) "file".

Definition buildSelectionRange (editor : option TextEditor)
    : option SelectionState.SelectionRange :=
  match editor with
  | None => None
  | Some ed =>
      if negb (isFile ed) || isEmpty ed then None
      else
        Some {| SelectionState.filePath := fsPath ed;
                SelectionState.startLine := startLineIndex ed + 1;
                SelectionState.endLine := endLineIndex ed + 1;
                SelectionState.startColumn := Some (startCharacter ed);
                SelectionState.endColumn := Some (endCharacter ed);
                SelectionState.selectedText := getText ed;
                SelectionState.autoInclude := None |}
  end.

(** A property of an object literal: left out of the JSON text and of the
    posted object when its value is [undefined]. *)
Definition property (name : string) (value : option json) : list (string * json) :=
  match value with
  | Some v => [(name, v)]
  | None => []
  end.

(** The six properties that [serializeSelection] picks. *)
Definition picked (selection : SelectionState.SelectionRange) : list (string * json) :=
  [ ("filePath", JStr (SelectionState.filePath selection));
    ("startLine", JNum (SelectionState.startLine selection));
    ("endLine", JNum (SelectionState.endLine selection)) ]
  ++ property "startColumn" (option_map JNum (SelectionState.startColumn selection))
  ++ property "endColumn" (option_map JNum (SelectionState.endColumn selection))
  ++ [ ("selectedText", JStr (SelectionState.selectedText selection)) ].

Definition serializeSelection (selection : option SelectionState.SelectionRange) : string :=
  match selection with
  | None => "::no_selection::"
  | Some s => stringify (JObj (picked s))
  end.

(** The selection as the object that is posted. *)
Definition toJson (selection : option SelectionState.SelectionRange) : json :=
  match selection with
  | None => JNull
  | Some s =>
      JObj (picked s ++
            property "autoInclude" (option_map JBool (SelectionState.autoInclude s)))
  end.

(** The message of [sendSelectionUpdate]; [requestId] is the identifier made
    of the clock and a random number. *)
Definition selectionMessage (requestId : string)
    (selection : option SelectionState.SelectionRange) : json :=
  JObj [ ("type", JStr "request");
         ("requestId", JStr requestId);
         ("request", JObj [ ("type", JStr "selection_changed");
                            ("selection", toJson selection) ]) ].

(** The variable [lastSelectionSignature] of the closure, and the service,
    which holds the selection state. *)
Record State : Type := {
  lastSelectionSignature : option string;
  service : WebViewService.State
}.

(** A call on the [selectionState] singleton. *)
Definition onSelectionState (f : SelectionState.State -> SelectionState.State)
    (this : State) : State :=
  {| lastSelectionSignature := lastSelectionSignature this;
     service :=
       {| WebViewService.webviews := WebViewService.webviews (service this);
          WebViewService.readyWebviews := WebViewService.readyWebviews (service this);
          WebViewService.webviewConfigs := WebViewService.webviewConfigs (service this);
          WebViewService.pendingMessages := WebViewService.pendingMessages (service this);
          WebViewService.editorPanels := WebViewService.editorPanels (service this);
          WebViewService.selectionState :=
            f (WebViewService.selectionState (service this));
          WebViewService.posts := WebViewService.posts (service this) |} |}.

Definition pending (this : State) : bool :=
  SelectionState.hasPendingAutoInclude (WebViewService.selectionState (service this)).

Section WithHost.

Variable postMessageThrows :
  nat -> WebViewService.Webview -> WebViewService.Payload -> bool.

Definition sendSelectionUpdate (requestId : string)
    (selection : option SelectionState.SelectionRange) (force : option bool)
    (this : State) : State :=
  let signature := serializeSelection selection in
  if negb (default false force) &&
     SelectionState.signatureEq (Some signature) (lastSelectionSignature this)
  then this
  else
    {| lastSelectionSignature := Some signature;
       service :=
         WebViewService.postMessage postMessageThrows
           (selectionMessage requestId selection) (service this) |}.

(** [syncSelection(editor, options)]; the second argument is
    [options?.autoInclude]. *)
Definition syncSelection (requestId : string) (editor : option TextEditor)
    (optAutoInclude : option bool) (this : State) : State :=
  let isEditorSelectable :=
    match editor with Some ed => isFile ed | None => false end in
  match buildSelectionRange editor with
  | None =>
      if negb isEditorSelectable && pending this then this
      else
        sendSelectionUpdate requestId None None
          (onSelectionState (SelectionState.set None None) this)
  | Some selection =>
      let payload :=
        if default false optAutoInclude then SelectionState.stamp selection
        else selection in
      sendSelectionUpdate requestId (Some payload) optAutoInclude
        (onSelectionState (SelectionState.set (Some selection) optAutoInclude) this)
  end.

(** The command [claudix.addSelectionToChat], up to the focus of the view:
    a warning and nothing else without a selection in a file. *)
Definition addSelectionToChat (requestId : string) (editor : option TextEditor)
    (this : State) : State :=
  match editor with
  | Some ed =>
      if isEmpty ed || negb (isFile ed) then this
      else syncSelection requestId editor (Some true) this
  | None => this
  end.

End WithHost.

(** An editor on a file with a selection of one line. *)
Definition sampleEditor : TextEditor :=
  {| scheme := "file"; fsPath := "/w/a.ts"; startLineIndex := 2; startCharacter := 0;
     endLineIndex := 2; endCharacter := 3; isEmpty := false; getText := "foo" |}.

(** The output panel: an editor that is not on a file. *)
Definition outputPanel : TextEditor :=
  {| scheme := "output"; fsPath := ""; startLineIndex := 0; startCharacter := 0;
     endLineIndex := 0; endCharacter := 0; isEmpty := true; getText := "" |}.

(** The extension at its start. *)
Definition initial : State :=
  {| lastSelectionSignature := None; service := WebViewService.initial |}.

End Extension.

(** ** Inputs of further examples *)

Module Cases.

Import Js Value Parser.

(** The body of a diagnostics tag: an array of one entry that has a message
    only. *)
Definition diagnosticsJson : string :=
  "[{" +:+ DQ +:+ "message" +:+ DQ +:+ ":" +:+ DQ +:+ "unused" +:+ DQ +:+ "}]".

Definition diagnosticsText : string :=
  "<post-tool-use-hook><ide_diagnostics>" +:+ diagnosticsJson
  +:+ "</ide_diagnostics></post-tool-use-hook>".

(** The block of the selection example. *)
Definition selectionExampleBlock : ContentBlockType :=
  Selection {| filePath := "src/a.ts"; label := "a.ts#3-7";
               startLine := Some 3; endLine := Some 7;
               selectedText := Some ("lines 3 to 7" +:+ LF +:+ "foo" +:+ LF +:+ "bar") |}.

Definition openedExample : string :=
  "<ide_opened_file>The user opened the file /w/src/a.ts in the IDE.".



(** A fragment with a tag that the classifier does not know. *)
Definition videoFragment : json := JObj [("type", JStr "video"); ("frames", JNum 24)].

Definition videoDump : string :=
  "{" +:+ DQ +:+ "type" +:+ DQ +:+ ":" +:+ DQ +:+ "video" +:+ DQ +:+ ","
  +:+ DQ +:+ "frames" +:+ DQ +:+ ":24}".

(** Two posts, the sidebar view resolved, and the first message of its
    webview. *)
Definition chatReady : list WebViewService.Event :=
  Samples.twoQueued ++ [WebViewService.DidReceiveMessage 7%nat].

End Cases.

(** * Properties *)

(** ** The classifier *)

Module ParserFacts.

Import Js Value Parser Samples.

Section WithEngine.

Variable JSON_parse : string -> option json.

Local Abbreviation parseTextBlock := (parseTextBlock JSON_parse).
Local Abbreviation parseBlock := (parseBlock JSON_parse).
Local Abbreviation parseDiagnostics := (parseDiagnostics JSON_parse).
Local Abbreviation parseFragments := (parseFragments JSON_parse).
Local Abbreviation parseMessageContent := (parseMessageContent JSON_parse).

Lemma parseTextTail_length text : (length (parseTextTail text) <= 1)%nat.
Proof.
  unfold parseTextTail.
  repeat case_match; simpl; lia.
Qed.

Lemma parseTextBlock_length text : (length (parseTextBlock text) <= 1)%nat.
Proof.
  pose proof (parseTextTail_length text).
  unfold Parser.parseTextBlock, tryRule.
  repeat case_match; simpl; lia.
Qed.

Lemma parseTextBlock_fall_through text :
  ruleBeforeDiagnostics text = false ->
  parseDiagnostics text = None ->
  parseTextBlock text = parseTextTail text.
Proof.
  unfold ruleBeforeDiagnostics, Parser.parseTextBlock, tryRule, isSome.
  intros H1 H2. rewrite H2.
  repeat case_match; simpl in *; try reflexivity; try discriminate.
Qed.

Lemma parseDiagnostics_body text :
  parseDiagnostics text =
    match diagnosticsBody text with
    | Some body =>
        match JSON_parse body with
        | Some (JArr parsed) =>
            match mapM toEntry parsed with
            | Some diagnostics => Some (Diagnostics diagnostics)
            | None => None
            end
        | _ => None
        end
    | None => None
    end.
Proof.
  unfold Parser.parseDiagnostics, diagnosticsBody.
  repeat case_match; congruence.
Qed.

(** [parsed.map] throws on an array that holds [null]. *)
Lemma toEntry_null parsed : In JNull parsed -> mapM toEntry parsed = None.
Proof.
  induction parsed as [|entry parsed IH]; simpl; [done|].
  intros [-> | Hin]; [reflexivity|].
  destruct (toEntry entry); [|reflexivity].
  simpl. by rewrite (IH Hin).
Qed.

Lemma rule_not_diagnostics text b :
  (parseSelection text = Some b \/ parseOpenedFile text = Some b
   \/ parseSlashCommandResult text = Some b) ->
  isDiagnostics b = false.
Proof.
  unfold parseSelection, parseOpenedFile, parseSlashCommandResult.
  intros [H | [H | H]]; repeat case_match; simplify_eq; reflexivity.
Qed.

Lemma parseTextTail_not_diagnostics text :
  Forall (fun b => isDiagnostics b = false) (parseTextTail text).
Proof.
  unfold parseTextTail. repeat case_match; repeat constructor.
Qed.

(** The blocks of a text hold a diagnostics block only if [parseDiagnostics]
    made it. *)
Lemma parseTextBlock_diagnostics text :
  parseDiagnostics text = None ->
  Forall (fun b => isDiagnostics b = false) (parseTextBlock text).
Proof.
  intros Hd. pose proof (parseTextTail_not_diagnostics text) as Ht.
  unfold Parser.parseTextBlock, tryRule. rewrite Hd.
  repeat case_match; try assumption; repeat constructor;
    eapply rule_not_diagnostics; eauto.
Qed.

Lemma parseTextBlock_nil text :
  parseTextBlock text = [] <-> silentText JSON_parse text = true.
Proof.
  unfold silentText, ruleBeforeRejection, ruleBeforeDiagnostics,
    Parser.parseTextBlock, tryRule, parseTextTail, isSome.
  repeat case_match; simpl; split; intros; simplify_eq; try reflexivity;
    try discriminate;
    repeat match goal with
    | H : negb _ = true |- _ => apply negb_true_iff in H
    | H : negb _ = false |- _ => apply negb_false_iff in H
    | H : _ && _ = true |- _ => apply andb_true_iff in H; destruct H
    end; simpl in *; try congruence.
Qed.

Lemma parseBlock_primitive raw :
  truthy raw && isObjectType raw = false ->
  parseBlock raw =
    Some [createTextBlock
            match raw with
            | JBool true => "true"
            | JBool false => "false"
            | JNum n => numberToString n
            | JStr s => s
            | _ => ""
            end].
Proof.
  destruct raw as [ | [] | n | s | items | ps]; simpl; try discriminate;
    intros _; unfold Parser.parseBlock; simpl; rewrite ?orb_true_r; reflexivity.
Qed.

Lemma parseBlock_unrecognized raw :
  unrecognized raw = true ->
  parseBlock raw = Some [createTextBlock (stringify raw)].
Proof.
  unfold unrecognized, recognizedTypes, Parser.parseBlock. simpl existsb.
  intros H.
  apply andb_true_iff in H as [H1 H2].
  apply andb_true_iff in H1 as [-> ->]. simpl.
  apply negb_true_iff in H2.
  repeat (apply orb_false_iff in H2 as [?H H2]).
  repeat match goal with H : hasType _ _ = false |- _ => rewrite H; clear H end.
  reflexivity.
Qed.

Lemma parseBlock_text text :
  parseBlock (textFragment text) = Some (parseTextBlock text).
Proof. reflexivity. Qed.

Lemma hasType_exclusive raw a b :
  hasType raw a = true -> hasType raw b = true -> a = b.
Proof.
  unfold hasType. repeat case_match; try discriminate.
  intros Ha Hb. apply String.eqb_eq in Ha, Hb. congruence.
Qed.

(** What [parseBlock] makes of a fragment whose conversions succeed. *)
Lemma parseBlock_convertible raw :
  convertible raw = true ->
  exists blocks,
    parseBlock raw = Some blocks /\
    (length blocks <= 1)%nat /\
    (blocks = [] <-> silent JSON_parse raw = true).
Proof.
  intros Hc.
  destruct (truthy raw && isObjectType raw) eqn:Hobj.
  - unfold convertible in Hc. unfold silent, Parser.parseBlock. rewrite Hobj.
    apply andb_true_iff in Hobj as [Ht Ho]. rewrite Ht, Ho. simpl.
    destruct (hasType raw "text") eqn:Htext.
    + assert (hasType raw "redacted_thinking" = false) as ->.
      { destruct (hasType raw "redacted_thinking") eqn:E; [|done].
        pose proof (hasType_exclusive _ _ _ Htext E). discriminate. }
      simpl.
      destruct (String_ _) as [s|]; [|discriminate]. simpl.
      eexists. split; [reflexivity|]. split; [apply parseTextBlock_length|].
      apply parseTextBlock_nil.
    + destruct (hasType raw "thinking") eqn:Hthink.
      * assert (hasType raw "redacted_thinking" = false) as ->.
        { destruct (hasType raw "redacted_thinking") eqn:E; [|done].
          pose proof (hasType_exclusive _ _ _ Hthink E). discriminate. }
        destruct (String_ _) as [s|]; [|discriminate]. simpl.
        eexists. split; [reflexivity|]. split; [simpl; lia|].
        split; discriminate.
      * destruct (hasType raw "redacted_thinking").
        { eexists. split; [reflexivity|]. simpl. split; [lia|]. done. }
        repeat case_match; eexists; (split; [reflexivity|]); simpl;
          (split; [lia|]); split; discriminate.
  - rewrite (parseBlock_primitive _ Hobj).
    eexists. split; [reflexivity|]. split; [simpl; lia|].
    unfold silent. rewrite Hobj. simpl. split; discriminate.
Qed.

(** [parseBlock] throws exactly when one of its conversions does. *)
Lemma parseBlock_throws raw :
  parseBlock raw = None <-> convertible raw = false.
Proof.
  split.
  - intros Hn. destruct (convertible raw) eqn:Hc; [|reflexivity].
    destruct (parseBlock_convertible raw Hc) as (blocks & Hb & _). congruence.
  - unfold convertible, Parser.parseBlock.
    destruct (truthy raw && isObjectType raw) eqn:Hobj.
    + apply andb_true_iff in Hobj as [-> ->]. simpl.
      destruct (hasType raw "text"); [by destruct (String_ _)|].
      destruct (hasType raw "thinking"); [by destruct (String_ _)|].
      discriminate.
    + assert (hasType raw "text" = false /\ hasType raw "thinking" = false) as [-> ->];
        [|discriminate].
      destruct raw as [ | | | | |ps]; try (split; reflexivity).
      simpl in Hobj. discriminate.
Qed.

Lemma parseFragments_app rawContent : forall blocks,
  parseFragments rawContent blocks =
    match parseFragments rawContent [] with
    | Some more => Some (blocks ++ more)
    | None => None
    end.
Proof.
  induction rawContent as [|raw rawContent IH]; intros blocks; simpl.
  - by rewrite app_nil_r.
  - destruct (parseBlock raw) as [parsed|]; [|done].
    rewrite (IH (blocks ++ parsed)), (IH parsed).
    destruct (parseFragments rawContent []); [|done].
    by rewrite app_assoc.
Qed.

(** The blocks of a list of fragments are the blocks of each fragment, in the
    order of the fragments. *)
Lemma parseFragments_convertible rawContent :
  Forall (fun raw => convertible raw = true) rawContent ->
  exists per : list (list ContentBlockType),
    Forall2 (fun raw blocks =>
               parseBlock raw = Some blocks /\
               (length blocks <= 1)%nat /\
               (blocks = [] <-> silent JSON_parse raw = true)) rawContent per /\
    parseFragments rawContent [] = Some (concat per).
Proof.
  induction 1 as [|raw rawContent Hraw _ IH].
  - exists []. split; [constructor | reflexivity].
  - destruct IH as (per & Hper & Hrun).
    destruct (parseBlock_convertible raw Hraw) as (blocks & Hb & Hlen & Hnil).
    exists (blocks :: per). split; [constructor; auto|].
    simpl. rewrite Hb, parseFragments_app, Hrun. reflexivity.
Qed.

(** C1, as amended. A text fragment that starts with the marker followed by
    "from src/a.ts: lines 3 to 7", the lines "foo" and "bar" and the sentence
    "This may or may not be related", whatever follows, yields exactly one
    selection block with filePath "src/a.ts", startLine 3, endLine 7, label
    "a.ts#3-7", and as selectedText everything between the colon of the path
    and the closing sentence, trimmed: the line phrase and the two lines. *)
Theorem selection_example_classified (after : string) :
  parseMessageContent (Some [textFragment (selectionExample +:+ after)]) =
    Some [Selection {| filePath := "src/a.ts";
                       label := "a.ts#3-7";
                       startLine := Some 3;
                       endLine := Some 7;
                       selectedText :=
                         Some ("lines 3 to 7" +:+ LF +:+ "foo" +:+ LF +:+ "bar") |}].
Proof. vm_compute. reflexivity. Qed.

(** C3, as amended. On every list of fragments whose text, value and thinking
    fields convert to strings the classifier returns. A fragment with an
    unrecognized tag yields exactly one text block, which holds its JSON
    dump; a fragment that is no object yields exactly one text block, which
    holds its string form (the empty string for null); the digits of a number
    are named where the number is a safe integer. On a text fragment whose
    text is a string the classifier returns what the rules of
    [parseTextBlock], a total function, give. *)
Theorem classifier_total_on_convertible (rawContent : list json) :
  Forall (fun raw => convertible raw = true) rawContent ->
  (exists blocks, parseMessageContent (Some rawContent) = Some blocks) /\
  parseMessageContent None = Some [] /\
  (forall raw, unrecognized raw = true ->
     exists dump,
       parseBlock raw = Some [Text dump None] /\
       (Numbers.safe raw = true -> dump = stringify raw)) /\
  parseBlock Cases.videoFragment = Some [Text Cases.videoDump None] /\
  (parseBlock JNull = Some [Text "" None] /\
   (forall b, parseBlock (JBool b) = Some [Text (if b then "true" else "false") None]) /\
   (forall n, exists digits,
      parseBlock (JNum n) = Some [Text digits None] /\
      (Numbers.isSafeInteger n = true -> digits = numberToString n)) /\
   parseBlock (JNum 42) = Some [Text "42" None] /\
   parseBlock (JNum (-7)) = Some [Text "-7" None] /\
   parseBlock (JNum 0) = Some [Text "0" None] /\
   (forall s, parseBlock (JStr s) = Some [Text s None])) /\
  (forall text, parseBlock (textFragment text) = Some (parseTextBlock text)).
Proof.
  intros Hc. split; [|split; [reflexivity|split; [|split; [|split]]]].
  - destruct (parseFragments_convertible rawContent Hc) as (per & _ & Hrun).
    exists (concat per). exact Hrun.
  - intros raw Hu. exists (stringify raw).
    split; [exact (parseBlock_unrecognized raw Hu)|reflexivity].
  - reflexivity.
  - split; [reflexivity|]. split; [intros []; reflexivity|].
    split; [|split; [reflexivity|split; [reflexivity|split; [reflexivity|]]]].
    + intros n. exists (numberToString n). split; [|reflexivity].
      rewrite parseBlock_primitive; [reflexivity|].
      simpl. by rewrite ?andb_false_r.
    + intros x. rewrite parseBlock_primitive; [reflexivity|].
      simpl. by rewrite ?andb_false_r.
  - exact parseBlock_text.
Qed.

(** C4, as amended. On every list of fragments whose text, value and thinking
    fields convert to strings, the blocks are those of the first fragment,
    then those of the second, and so on; a fragment gives at most one block,
    and gives none exactly when it is a redacted_thinking fragment or a text
    fragment whose text is a tool-rejection notice that no earlier rule of the
    text pipeline matches. *)
Theorem blocks_follow_fragments (rawContent : list json) :
  Forall (fun raw => convertible raw = true) rawContent ->
  exists per : list (list ContentBlockType),
    Forall2 (fun raw blocks =>
               parseBlock raw = Some blocks /\
               (length blocks <= 1)%nat /\
               (blocks = [] <-> silent JSON_parse raw = true)) rawContent per /\
    parseMessageContent (Some rawContent) = Some (concat per).
Proof. exact (parseFragments_convertible rawContent). Qed.

(** C9. When the nested diagnostics tag is missing, or its body is no JSON
    text, or is JSON but no array (or an array that holds null), no
    diagnostics block is made: [parseDiagnostics] gives nothing, no block of
    the text is a diagnostics block, the text goes on to the rules that
    follow (unless a rule placed before had matched) and ends as the plain
    text block when none of them applies; nothing is thrown. *)
Theorem malformed_diagnostics_fall_through (text : string) :
  match diagnosticsBody text with
  | None => True
  | Some body =>
      match JSON_parse body with
      | None => True
      | Some (JArr parsed) => In JNull parsed
      | Some _ => True
      end
  end ->
  parseDiagnostics text = None /\
  Forall (fun b => isDiagnostics b = false) (parseTextBlock text) /\
  (ruleBeforeDiagnostics text = false -> parseTextBlock text = parseTextTail text) /\
  (ruleBeforeDiagnostics text = false -> parseSlashCommandText text = None ->
   isRejection text = false -> parseTextBlock text = [createTextBlock text]) /\
  parseMessageContent (Some [textFragment text]) = Some (parseTextBlock text).
Proof.
  intros Hbad.
  assert (parseDiagnostics text = None) as Hd.
  { rewrite parseDiagnostics_body.
    destruct (diagnosticsBody text) as [body|]; [|reflexivity].
    destruct (JSON_parse body) as [[ | | | |parsed| ]|]; try reflexivity.
    by rewrite (toEntry_null parsed Hbad). }
  split; [exact Hd|]. split; [exact (parseTextBlock_diagnostics text Hd)|].
  split; [intros Hr; exact (parseTextBlock_fall_through text Hr Hd)|].
  split.
  - intros Hr Hs Hj. rewrite (parseTextBlock_fall_through text Hr Hd).
    unfold parseTextTail. rewrite Hs, Hj. reflexivity.
  - unfold Parser.parseMessageContent. cbn [Parser.parseFragments].
    rewrite parseBlock_text. reflexivity.
Qed.

End WithEngine.

(** C1, as stated, fails on the text of the example: the snippet is not the
    two lines alone. *)
Lemma selection_example_snippet_differs :
  parseMessageContent JsonText.parse (Some [textFragment selectionExample]) <>
    Some [Selection {| filePath := "src/a.ts";
                       label := "a.ts#3-7";
                       startLine := Some 3;
                       endLine := Some 7;
                       selectedText := Some ("foo" +:+ LF +:+ "bar") |}].
Proof. vm_compute. discriminate. Qed.

(** C3, as stated, fails on a text fragment whose text is an object with a
    property named toString: the conversion throws and the classifier with
    it. *)
Lemma classifier_throws_on_shadowed_toString :
  parseMessageContent JsonText.parse
    (Some [shadowedToString]) = None.
Proof. reflexivity. Qed.

Lemma classifier_total_witness :
  Forall (fun raw => convertible raw = true) sampleContent /\
  exists blocks, parseMessageContent JsonText.parse (Some sampleContent) = Some blocks.
Proof.
  split; [repeat constructor|].
  apply (classifier_total_on_convertible JsonText.parse sampleContent).
  repeat constructor.
Defined.

(** C4, as stated, fails on a rejection notice whose reason holds a command
    tag: the fragment is a tool-rejection marker and gives one block. *)
Lemma rejection_notice_with_command_tag :
  isRejection rejectionWithCommand = true /\
  parseMessageContent JsonText.parse (Some [textFragment rejectionWithCommand]) =
    Some [Text "x" (Some true)].
Proof. split; vm_compute; reflexivity. Qed.

Lemma blocks_follow_fragments_witness :
  Forall (fun raw => convertible raw = true) sampleContent /\
  exists per : list (list ContentBlockType),
    Forall2 (fun raw blocks =>
               parseBlock JsonText.parse raw = Some blocks /\
               (length blocks <= 1)%nat /\
               (blocks = [] <-> silent JsonText.parse raw = true)) sampleContent per /\
    parseMessageContent JsonText.parse (Some sampleContent) = Some (concat per).
Proof.
  split; [repeat constructor|].
  apply (blocks_follow_fragments JsonText.parse sampleContent).
  repeat constructor.
Defined.

Lemma malformed_diagnostics_witness :
  diagnosticsBody malformedDiagnostics = Some "[{oops" /\
  JsonText.parse "[{oops" = None /\
  parseMessageContent JsonText.parse (Some [textFragment malformedDiagnostics]) =
    Some [createTextBlock malformedDiagnostics].
Proof.
  split; [reflexivity|]. split; [reflexivity|].
  destruct (malformed_diagnostics_fall_through JsonText.parse malformedDiagnostics)
    as (_ & _ & _ & Hplain & Hrun).
  - exact I.
  - rewrite Hrun. rewrite Hplain; reflexivity.
Defined.

End ParserFacts.

(** ** The selection state *)

Module SelectionFacts.

Import SelectionState Samples.

Lemma initial_consistent : consistent initial.
Proof. unfold consistent. simpl. discriminate. Qed.

Lemma set_consistent selection optAutoInclude this :
  consistent (set selection optAutoInclude this).
Proof.
  unfold consistent, set, hasPendingAutoInclude, getSnapshot.
  destruct selection as [sel|]; simpl.
  - repeat case_match; simpl; eauto.
  - discriminate.
Qed.

Lemma call_consistent c this : consistent this -> consistent (call c this).
Proof.
  destruct c; simpl; try done.
  - intros _. apply set_consistent.
  - unfold consistent, consume, hasPendingAutoInclude, getSnapshot.
    destruct (lastSelection this) as [snapshot|] eqn:Hl; simpl; [|by rewrite Hl].
    destruct (pendingAutoInclude this); simpl; [discriminate|by rewrite Hl].
Qed.

Lemma run_consistent cs : forall this, consistent this -> consistent (run cs this).
Proof.
  induction cs as [|c cs IH]; intros this H; simpl; [done|].
  apply IH, call_consistent, H.
Qed.

(** C8, as amended. Whatever the state, after [set(S, {autoInclude: true})]
    the first [consume()] returns S stamped with the flag and clears the
    pending state, and a second [consume()] returns S as it was set, with no
    flag stamped on it, and changes nothing. *)
Theorem consume_fires_once (S : SelectionRange) (this : State) :
  let this1 := set (Some S) (Some true) this in
  let this2 := snd (consume this1) in
  hasPendingAutoInclude this1 = true /\
  fst (consume this1) = Some (stamp S) /\
  hasPendingAutoInclude this2 = false /\
  consume this2 = (Some S, this2).
Proof. simpl. auto. Qed.

(** C8, as stated, fails for a selection that carries the flag itself: the
    second [consume()] returns it with the flag. *)
Lemma second_consume_keeps_own_flag :
  let this1 := set (Some flagged) (Some true) initial in
  let this2 := snd (consume this1) in
  fst (consume this2) ≫= autoInclude = Some true.
Proof. reflexivity. Qed.

(** C10. In every state that calls of [set], [getSnapshot], [consume],
    [hasPendingAutoInclude] and [clearAutoInclude] lead to from the initial
    one, a pending auto-include comes with a stored selection. *)
Theorem pending_has_selection (cs : list Call) :
  hasPendingAutoInclude (run cs initial) = true ->
  is_Some (getSnapshot (run cs initial)).
Proof. exact (run_consistent cs initial initial_consistent). Qed.

Lemma pending_has_selection_witness :
  hasPendingAutoInclude (run [CallSet (Some flagged) (Some true); CallGetSnapshot] initial) = true /\
  is_Some (getSnapshot (run [CallSet (Some flagged) (Some true); CallGetSnapshot] initial)).
Proof.
  split; [reflexivity|].
  apply (pending_has_selection [CallSet (Some flagged) (Some true); CallGetSnapshot]).
  reflexivity.
Defined.

End SelectionFacts.

(** ** The webview service *)

Module WebViewFacts.

Import Value WebViewService Samples.

Local Open Scope nat_scope.

(** Closes a conjunction of equations between fields. *)
Ltac fields := repeat split; first [reflexivity | assumption | congruence].

Section WithHost.

Variable postMessageThrows : nat -> Webview -> Payload -> bool.

Local Abbreviation send := (send postMessageThrows).
Local Abbreviation broadcast := (broadcast postMessageThrows).
Local Abbreviation postMessage := (postMessage postMessageThrows).
Local Abbreviation replay := (replay postMessageThrows).
Local Abbreviation flushTo := (flushTo postMessageThrows).
Local Abbreviation flushPendingMessages := (flushPendingMessages postMessageThrows).
Local Abbreviation markWebviewReady := (markWebviewReady postMessageThrows).
Local Abbreviation step := (step postMessageThrows).
Local Abbreviation run := (run postMessageThrows).
Local Abbreviation attempts := (attempts postMessageThrows).
Local Abbreviation replayCalls := (replayCalls postMessageThrows).

Lemma has_In w s : has w s = true <-> In w s.
Proof. unfold has. rewrite bool_decide_eq_true. apply list_elem_of_In. Qed.

Lemma In_remove x w s : In x (remove w s) <-> In x s /\ x <> w.
Proof.
  unfold remove. rewrite filter_In, negb_true_iff, Nat.eqb_neq. tauto.
Qed.

(** The registry after the webviews of [gone] have been forgotten. *)
Lemma forget_all gone : forall this,
  let this' := fold_left (fun st w => forget w st) gone this in
  pendingMessages this' = pendingMessages this /\
  posts this' = posts this /\
  (forall x, In x (webviews this') <-> In x (webviews this) /\ ~ In x gone) /\
  (forall x, In x (readyWebviews this') <-> In x (readyWebviews this) /\ ~ In x gone) /\
  (forall x, In x gone -> webviewConfigs this' !! x = None) /\
  (forall x, ~ In x gone -> webviewConfigs this' !! x = webviewConfigs this !! x).
Proof.
  induction gone as [|w gone IH]; intros this; simpl.
  - intuition.
  - destruct (IH (forget w this)) as (Hp & Hs & Hw & Hr & Hc1 & Hc2).
    simpl in *. rewrite Hp, Hs.
    split; [reflexivity|]. split; [reflexivity|].
    split; [|split; [|split]].
    + intros x. rewrite Hw, In_remove. intuition.
    + intros x. rewrite Hr, In_remove. intuition.
    + intros x [-> | Hin].
      * destruct (in_dec Nat.eq_dec x gone) as [Hi|Hn]; [auto|].
        rewrite (Hc2 x Hn). apply lookup_delete_eq.
      * auto.
    + intros x Hn. rewrite Hc2 by tauto.
      apply lookup_delete_ne. intros ->. tauto.
Qed.

Lemma eligible_same (a b : State) ws :
  readyWebviews a = readyWebviews b ->
  webviewConfigs a = webviewConfigs b ->
  List.filter (eligible a) ws = List.filter (eligible b) ws.
Proof.
  intros Hr Hc. apply filter_ext. intros x. unfold eligible. by rewrite Hr, Hc.
Qed.

(** The loop of [postMessage]: every eligible webview is called, whatever
    the earlier calls did. *)
Lemma broadcast_spec p ws : forall delivered toRemove this,
  let calls := attempts (length (posts this)) p (List.filter (eligible this) ws) in
  exists this1,
    broadcast p ws delivered toRemove this =
      (delivered || existsb succeeded calls,
       toRemove ++ map target (List.filter threw calls), this1) /\
    webviews this1 = webviews this /\
    readyWebviews this1 = readyWebviews this /\
    webviewConfigs this1 = webviewConfigs this /\
    pendingMessages this1 = pendingMessages this /\
    posts this1 = posts this ++ calls.
Proof.
  induction ws as [|w ws IH]; intros delivered toRemove this; simpl.
  - exists this. rewrite orb_false_r, !app_nil_r. repeat split; reflexivity.
  - pose proof (eq_refl : eligible this w =
        has w (readyWebviews this) && addressed (webviewConfigs this !! w)) as He0.
    destruct (has w (readyWebviews this)) eqn:Hr; simpl in He0 |- *;
      [|rewrite He0; apply IH].
    destruct (addressed (webviewConfigs this !! w)) eqn:Ha; simpl;
      rewrite He0; [|apply IH].
    unfold WebViewService.send.
    destruct (postMessageThrows (length (posts this)) w p) eqn:Ht; simpl.
    + destruct (IH delivered (toRemove ++ [w])
                  (record {| target := w; payload := p; threw := true |} this))
        as (this1 & Hb & Hw & Hrd & Hc & Hp & Hs).
      exists this1.
      rewrite (eligible_same _ this ws) in Hb, Hs by reflexivity.
      simpl in Hb, Hs.
      rewrite length_app, Nat.add_1_r in Hb, Hs.
      rewrite Hb, Hs, <- !app_assoc, !Ht. simpl. fields.
    + set (this0 := handleAutoIncludeDelivered p
                      (record {| target := w; payload := p; threw := false |} this)).
      assert (webviews this0 = webviews this /\ readyWebviews this0 = readyWebviews this /\
              webviewConfigs this0 = webviewConfigs this /\
              pendingMessages this0 = pendingMessages this /\
              posts this0 = posts this ++ [{| target := w; payload := p; threw := false |}])
        as (E1 & E2 & E3 & E4 & E5).
      { unfold this0, handleAutoIncludeDelivered. destruct (announcesAutoInclude p); fields. }
      destruct (IH true toRemove this0) as (this1 & Hb & Hw & Hrd & Hc & Hp & Hs).
      exists this1.
      rewrite (eligible_same this0 this ws E2 E3) in Hb, Hs.
      rewrite E5, length_app, Nat.add_1_r in Hb, Hs.
      rewrite Hb, Hs, <- !app_assoc, !Ht. unfold succeeded at 1. simpl.
      rewrite orb_true_r, Hw, Hrd, Hc, Hp, E1, E2, E3, E4. fields.
Qed.

Lemma enqueue_pending m (a b : State) :
  pendingMessages a = pendingMessages b ->
  pendingMessages (enqueuePendingMessage m a) = pendingMessages (enqueuePendingMessage m b).
Proof. unfold enqueuePendingMessage. simpl. by intros ->. Qed.

Lemma postMessage_spec (m : json) (this : State) :
  let calls :=
    attempts (length (posts this)) (wrap m) (List.filter (eligible this) (webviews this)) in
  let failed := map target (List.filter threw calls) in
  let this' := postMessage m this in
  posts this' = posts this ++ calls /\
  (forall w, In w failed ->
     ~ In w (webviews this') /\ ~ In w (readyWebviews this') /\
     webviewConfigs this' !! w = None) /\
  (forall w, ~ In w failed ->
     (In w (webviews this') <-> In w (webviews this)) /\
     (In w (readyWebviews this') <-> In w (readyWebviews this)) /\
     webviewConfigs this' !! w = webviewConfigs this !! w) /\
  pendingMessages this' =
    if existsb succeeded calls then pendingMessages this
    else pendingMessages (enqueuePendingMessage m this).
Proof.
  intros calls failed this'. subst this'. unfold WebViewService.postMessage.
  destruct (Nat.eqb (length (webviews this)) 0) eqn:Hz.
  - apply Nat.eqb_eq, nil_length_inv in Hz.
    assert (calls = []) as Ec by (subst calls; rewrite Hz; reflexivity).
    subst failed. rewrite Ec. simpl. rewrite app_nil_r.
    split; [reflexivity|]. split; [intros w []|]. split; [|reflexivity].
    intros w _. tauto.
  - destruct (broadcast_spec (wrap m) (webviews this) false [] this)
      as (this1 & Hb & Hw & Hr & Hc & Hp & Hs).
    fold calls in Hb, Hs. simpl in Hb. fold failed in Hb.
    unfold wrap in Hb. rewrite Hb.
    set (this2 := if negb (existsb succeeded calls)
                  then enqueuePendingMessage m this1 else this1).
    assert (webviews this2 = webviews this /\ readyWebviews this2 = readyWebviews this /\
            webviewConfigs this2 = webviewConfigs this /\ posts this2 = posts this ++ calls /\
            pendingMessages this2 =
              if existsb succeeded calls then pendingMessages this
              else pendingMessages (enqueuePendingMessage m this))
      as (E1 & E2 & E3 & E4 & E5).
    { subst this2. destruct (existsb succeeded calls); simpl;
        repeat split; try assumption.
      by apply enqueue_pending. }
    destruct (forget_all failed this2) as (Fp & Fs & Fw & Fr & Fc1 & Fc2).
    simpl in Fp, Fs, Fw, Fr, Fc1, Fc2.
    rewrite Fp, Fs, E4, E5.
    split; [reflexivity|]. split; [|split; [|reflexivity]].
    + intros w Hin. rewrite Fw, Fr, (Fc1 w Hin). tauto.
    + intros w Hn. rewrite Fw, Fr, (Fc2 w Hn), E1, E2, E3. tauto.
Qed.

(** *** The replay of the queue *)

Lemma replayCalls_target n t ps : Forall (fun c => target c = t) (replayCalls n t ps).
Proof.
  revert n. induction ps as [|p ps IH]; intros n; simpl; [constructor|].
  destruct (postMessageThrows n t p); repeat constructor. apply IH.
Qed.



Lemma callsTo_app t a b : callsTo t (a ++ b) = callsTo t a ++ callsTo t b.
Proof. apply List.filter_app. Qed.


Lemma callsTo_none t w cs :
  t <> w -> Forall (fun c => target c = w) cs -> callsTo t cs = [].
Proof.
  intros Hne. induction 1 as [|c cs Hc _ IH]; simpl; [done|].
  rewrite Hc. destruct (Nat.eqb_spec w t); [congruence | exact IH].
Qed.

Lemma replay_spec w ps : forall this,
  let calls := replayCalls (length (posts this)) w ps in
  let this' := replay w ps this in
  posts this' = posts this ++ calls /\
  pendingMessages this' = pendingMessages this /\
  (if existsb threw calls
   then webviews this' = remove w (webviews this) /\
        readyWebviews this' = remove w (readyWebviews this) /\
        webviewConfigs this' = delete w (webviewConfigs this)
   else webviews this' = webviews this /\
        readyWebviews this' = readyWebviews this /\
        webviewConfigs this' = webviewConfigs this).
Proof.
  induction ps as [|p ps IH]; intros this; simpl.
  - rewrite app_nil_r. fields.
  - unfold WebViewService.send.
    destruct (postMessageThrows (length (posts this)) w p) eqn:Ht; simpl.
    + fields.
    + set (this0 := handleAutoIncludeDelivered p
                      (record {| target := w; payload := p; threw := false |} this)).
      assert (webviews this0 = webviews this /\ readyWebviews this0 = readyWebviews this /\
              webviewConfigs this0 = webviewConfigs this /\
              pendingMessages this0 = pendingMessages this /\
              posts this0 = posts this ++ [{| target := w; payload := p; threw := false |}])
        as (E1 & E2 & E3 & E4 & E5).
      { unfold this0, handleAutoIncludeDelivered. destruct (announcesAutoInclude p); fields. }
      destruct (IH this0) as (Hs & Hp & Hreg).
      rewrite E5, length_app, Nat.add_1_r in Hs, Hreg. simpl in Hs, Hreg.
      rewrite Hs, Hp, E4, <- app_assoc. simpl.
      split; [reflexivity|]. split; [reflexivity|].
      destruct (existsb threw _); rewrite <- E1, <- E2, <- E3; exact Hreg.
Qed.


Lemma replay_other w ps this t :
  t <> w ->
  webviewConfigs (replay w ps this) !! t = webviewConfigs this !! t /\
  (In t (readyWebviews (replay w ps this)) <-> In t (readyWebviews this)) /\
  (In t (webviews (replay w ps this)) <-> In t (webviews this)).
Proof.
  intros Hne. destruct (replay_spec w ps this) as (_ & _ & Hreg).
  destruct (existsb threw _); destruct Hreg as (-> & -> & ->).
  - rewrite lookup_delete_ne by congruence. rewrite !In_remove. tauto.
  - tauto.
Qed.



(** *** The ready set holds no webview twice *)

Lemma remove_NoDup w s : List.NoDup s -> List.NoDup (remove w s).
Proof. apply List.NoDup_filter. Qed.





Lemma markWebviewReady_fresh w this :
  has w (readyWebviews this) = false ->
  markWebviewReady w this = flushPendingMessages (nowReady w this).
Proof. unfold WebViewService.markWebviewReady. by intros ->. Qed.



Lemma run_app es1 es2 this : run (es1 ++ es2) this = run es2 (run es1 this).
Proof. apply fold_left_app. Qed.


(** *** The queue *)

Lemma lastN_absorb {A : Type} n (l r : list A) :
  lastN n (lastN n l ++ r) = lastN n (l ++ r).
Proof.
  unfold lastN.
  destruct (Nat.le_gt_cases (length l) n) as [Hle|Hgt].
  - by replace (length l - n) with 0 by lia.
  - assert (skipn (length l - n) l ++ r = skipn (length l - n) (l ++ r)) as ->.
    { rewrite skipn_app. by replace (length l - n - length l) with 0 by lia. }
    rewrite skipn_skipn, length_skipn, length_app.
    f_equal. lia.
Qed.

Lemma enqueue_lastN m this :
  (length (pendingMessages this) <= MAX_PENDING_MESSAGES)%nat ->
  pendingMessages (enqueuePendingMessage m this) =
    lastN MAX_PENDING_MESSAGES (pendingMessages this ++ [wrap m]).
Proof.
  unfold enqueuePendingMessage, lastN, MAX_PENDING_MESSAGES, wrap. simpl.
  intros Hle. rewrite length_app. simpl.
  destruct (Nat.ltb_spec 50 (length (pendingMessages this) + 1)) as [Hlt|Hge].
  - replace (length (pendingMessages this) + 1 - 50) with 1 by lia. reflexivity.
  - replace (length (pendingMessages this) + 1 - 50) with 0 by lia. reflexivity.
Qed.

Lemma lastN_length {A : Type} n (l : list A) : (length (lastN n l) <= n)%nat.
Proof. unfold lastN. rewrite length_skipn. lia. Qed.

Lemma enqueue_bounded m this :
  (length (pendingMessages this) <= MAX_PENDING_MESSAGES)%nat ->
  (length (pendingMessages (enqueuePendingMessage m this)) <= MAX_PENDING_MESSAGES)%nat.
Proof. intros H. rewrite (enqueue_lastN m this H). apply lastN_length. Qed.

Lemma enqueue_nonempty m this : pendingMessages (enqueuePendingMessage m this) <> [].
Proof.
  unfold enqueuePendingMessage, MAX_PENDING_MESSAGES. simpl.
  destruct (Nat.ltb_spec 50 (length (pendingMessages this ++ [{| type := "from-extension"; message := m |}]))) as [Hlt|Hge].
  - destruct (pendingMessages this ++ _) as [|a [|b l]]; simpl in *; [lia|lia|discriminate].
  - by destruct (pendingMessages this).
Qed.

Lemma postMessage_pending m this :
  pendingMessages (postMessage m this) = pendingMessages this \/
  pendingMessages (postMessage m this) = pendingMessages (enqueuePendingMessage m this).
Proof.
  destruct (postMessage_spec m this) as (_ & _ & _ & ->).
  destruct (existsb _ _); auto.
Qed.

Lemma flushPendingMessages_cases this :
  (pendingMessages this = [] /\ pendingMessages (flushPendingMessages this) = []
   /\ posts (flushPendingMessages this) = posts this) \/
  (pendingMessages this <> [] /\
   pendingMessages (flushPendingMessages this) = pendingMessages this) \/
  (pendingMessages this <> [] /\ readyWebviews this <> [] /\
   pendingMessages (flushPendingMessages this) = [] /\
   posts (flushPendingMessages this) = posts (flushTo (readyWebviews this) this) /\
   readyWebviews (flushPendingMessages this) =
     readyWebviews (flushTo (readyWebviews this) this)).
Proof.
  unfold WebViewService.flushPendingMessages.
  destruct (pendingMessages this) as [|p ps] eqn:Hp.
  - left. rewrite orb_true_r. auto.
  - right. destruct (readyWebviews this) as [|w ws] eqn:Hr; simpl.
    + left. split; [discriminate|]. exact Hp.
    + right. repeat split; discriminate.
Qed.

Lemma markWebviewReady_pending w this :
  pendingMessages (markWebviewReady w this) = pendingMessages this \/
  pendingMessages (markWebviewReady w this) = [].
Proof.
  unfold WebViewService.markWebviewReady.
  destruct (has w (readyWebviews this)); [by left|].
  fold (nowReady w this).
  destruct (flushPendingMessages_cases (nowReady w this))
    as [(_ & H & _) | [(_ & H) | (_ & _ & H & _)]]; auto.
Qed.

Lemma step_pending e this :
  pendingMessages (step e this) = pendingMessages this \/
  (exists m, e = PostMessage m /\
     pendingMessages (step e this) = pendingMessages (enqueuePendingMessage m this)) \/
  pendingMessages (step e this) = [].
Proof.
  destruct e; simpl; try (by left).
  - left. unfold openEditorPage. repeat case_match; reflexivity.
  - destruct (markWebviewReady_pending w this); auto.
  - destruct (postMessage_pending m this); eauto.
Qed.

Lemma run_bounded es :
  (length (pendingMessages (run es initial)) <= MAX_PENDING_MESSAGES)%nat.
Proof.
  induction es as [|e es IH] using rev_ind; [simpl; unfold MAX_PENDING_MESSAGES; lia|].
  rewrite run_app. simpl.
  destruct (step_pending e (run es initial)) as [-> | [(m & _ & ->) | ->]].
  - exact IH.
  - by apply enqueue_bounded.
  - simpl. lia.
Qed.

Lemma broadcast_none_ready p ws : forall delivered toRemove this,
  readyWebviews this = [] ->
  broadcast p ws delivered toRemove this = (delivered, toRemove, this).
Proof.
  induction ws as [|w ws IH]; intros delivered toRemove this Hr; simpl; [done|].
  rewrite Hr. simpl. by apply IH.
Qed.

Lemma postMessage_none_ready m this :
  readyWebviews this = [] -> postMessage m this = enqueuePendingMessage m this.
Proof.
  intros Hr. unfold WebViewService.postMessage.
  destruct (Nat.eqb _ 0); [done|].
  by rewrite (broadcast_none_ready _ _ _ _ _ Hr).
Qed.

Lemma posting_none_ready ms : forall this,
  readyWebviews this = [] ->
  (length (pendingMessages this) <= MAX_PENDING_MESSAGES)%nat ->
  pendingMessages (run (map PostMessage ms) this) =
    lastN MAX_PENDING_MESSAGES (pendingMessages this ++ map wrap ms).
Proof.
  induction ms as [|m ms IH]; intros this Hr Hle; simpl.
  - rewrite app_nil_r. unfold lastN.
    by replace (length (pendingMessages this) - MAX_PENDING_MESSAGES) with 0 by lia.
  - rewrite (postMessage_none_ready m this Hr).
    rewrite IH; [|exact Hr|by apply enqueue_bounded].
    rewrite (enqueue_lastN m this Hle), lastN_absorb, <- app_assoc. reflexivity.
Qed.

Lemma replay_accepted w ps : forall this,
  (forall n p, postMessageThrows n w p = false) ->
  replayCalls (length (posts this)) w ps =
    map (fun p => {| target := w; payload := p; threw := false |}) ps.
Proof.
  intros this Hok. generalize (length (posts this)).
  induction ps as [|p ps IH]; intros n; simpl; [done|].
  by rewrite Hok, IH.
Qed.

Lemma accepted_none_threw w ps :
  existsb threw (map (fun p => {| target := w; payload := p; threw := false |}) ps) = false.
Proof. induction ps; simpl; auto. Qed.

Lemma flush_single w this :
  readyWebviews this = [w] ->
  pendingMessages this <> [] ->
  addressed (webviewConfigs this !! w) = true ->
  let this' := flushPendingMessages this in
  pendingMessages this' = [] /\
  posts this' = posts (replay w (pendingMessages this) this) /\
  webviews this' = webviews (replay w (pendingMessages this) this) /\
  readyWebviews this' = readyWebviews (replay w (pendingMessages this) this) /\
  webviewConfigs this' = webviewConfigs (replay w (pendingMessages this) this).
Proof.
  intros Hr Hq Ha. unfold WebViewService.flushPendingMessages.
  rewrite Hr. destruct (pendingMessages this) as [|p ps] eqn:Hp; [done|].
  cbn [length Nat.eqb orb WebViewService.flushTo]. rewrite Ha. cbn [negb].
  simpl. rewrite Hp. fields.
Qed.

Lemma attempts_targets n p ws : map target (attempts n p ws) = ws.
Proof.
  revert n. induction ws as [|w ws IH]; intros n; simpl; [done|].
  by rewrite IH.
Qed.

Lemma attempts_payload n p ws : Forall (fun c => payload c = p) (attempts n p ws).
Proof.
  revert n. induction ws as [|w ws IH]; intros n; simpl; constructor; [done|apply IH].
Qed.

Lemma enqueue_last m this :
  last (pendingMessages (enqueuePendingMessage m this)) =
    Some {| type := "from-extension"; message := m |}.
Proof.
  unfold enqueuePendingMessage. cbn [pendingMessages].
  destruct (Nat.ltb _ _) eqn:Hlt.
  - destruct (pendingMessages this) as [|a l]; [discriminate|]. simpl.
    apply last_snoc.
  - apply last_snoc.
Qed.


(** *** The claims *)

(** C5. A call of [postMessage] returns; it calls every webview that is ready
    and addressed, one after the other and each with the posted message,
    whether or not earlier calls threw; the webviews whose call threw are
    gone from the two sets and from the map, and the others are tracked as
    before; when a call succeeded the queue is as it was, and when none did
    (also when nobody was called) the posted message is put at the end of
    the queue, from which the oldest payload leaves if it then holds more
    than 50. *)
Theorem broadcast_survives_failures (m : json) (this : State) :
  let calls :=
    attempts (length (posts this)) (wrap m) (List.filter (eligible this) (webviews this)) in
  let failed := map target (List.filter threw calls) in
  let this' := postMessage m this in
  posts this' = posts this ++ calls /\
  (forall w, In w failed ->
     ~ In w (webviews this') /\ ~ In w (readyWebviews this') /\
     webviewConfigs this' !! w = None) /\
  (forall w, ~ In w failed ->
     (In w (webviews this') <-> In w (webviews this)) /\
     (In w (readyWebviews this') <-> In w (readyWebviews this)) /\
     webviewConfigs this' !! w = webviewConfigs this !! w) /\
  pendingMessages this' =
    (if existsb succeeded calls then pendingMessages this
     else pendingMessages (enqueuePendingMessage m this)) /\
  map target calls = List.filter (eligible this) (webviews this) /\
  Forall (fun c => payload c = {| type := "from-extension"; message := m |}) calls /\
  (existsb succeeded calls = true -> pendingMessages this' = pendingMessages this) /\
  (existsb succeeded calls = false ->
   let pushed := pendingMessages this ++ [{| type := "from-extension"; message := m |}] in
   pendingMessages this' = (if Nat.ltb 50 (length pushed) then tail pushed else pushed) /\
   last (pendingMessages this') = Some {| type := "from-extension"; message := m |} /\
   pendingMessages this' <> []).
Proof.
  intros calls failed this'.
  destruct (postMessage_spec m this) as (Hs & Hgone & Hkept & Hq).
  fold calls failed this' in Hs, Hgone, Hkept, Hq.
  split; [exact Hs|]. split; [exact Hgone|]. split; [exact Hkept|].
  split; [exact Hq|]. split; [apply attempts_targets|]. split; [apply attempts_payload|].
  split; [intros Hd; by rewrite Hd in Hq|].
  intros Hd. rewrite Hd in Hq. rewrite Hq. cbv zeta.
  split; [reflexivity|]. split; [apply enqueue_last|apply enqueue_nonempty].
Qed.

(** C7. In every state the service reaches, the queue holds at most 50
    payloads; an enqueue keeps the last 50 of the queue with the new payload
    at its end, so that the oldest one leaves a full queue; messages posted
    while no webview is ready leave the last 50 of what was queued and
    posted, in order; and 51 messages posted to the new service leave the
    last 50. *)
Theorem pending_queue_bounded (es : list Event) :
  let this := run es initial in
  (length (pendingMessages this) <= MAX_PENDING_MESSAGES)%nat /\
  (forall m,
     pendingMessages (enqueuePendingMessage m this) =
       lastN MAX_PENDING_MESSAGES (pendingMessages this ++ [wrap m]) /\
     (length (pendingMessages this) = MAX_PENDING_MESSAGES ->
      pendingMessages (enqueuePendingMessage m this) =
        tail (pendingMessages this) ++ [wrap m])) /\
  (forall ms, readyWebviews this = [] ->
     pendingMessages (run (map PostMessage ms) this) =
       lastN MAX_PENDING_MESSAGES (pendingMessages this ++ map wrap ms)) /\
  (forall m0 ms, length ms = MAX_PENDING_MESSAGES ->
     pendingMessages (run (map PostMessage (m0 :: ms)) initial) = map wrap ms).
Proof.
  intros this. pose proof (run_bounded es) as Hle. fold this in Hle.
  split; [exact Hle|]. split; [|split].
  - intros m. split; [by apply enqueue_lastN|].
    intros Hfull. unfold enqueuePendingMessage. simpl.
    rewrite length_app, Hfull. simpl.
    destruct (pendingMessages this); [discriminate|reflexivity].
  - intros ms Hr. by apply posting_none_ready.
  - intros m0 ms Hlen.
    rewrite posting_none_ready; [|reflexivity|simpl; unfold MAX_PENDING_MESSAGES; lia].
    unfold lastN. simpl. rewrite length_map, Hlen. reflexivity.
Qed.

(** C6. With no webview registered and none ready, [postMessage(m)] returns
    with m queued and no call made. When a sidebar chat webview is then
    registered and its first message arrives, and its [postMessage] does not
    throw, the queued payloads are sent to it in the order of the queue and
    the queue is empty; a message posted after that is sent after them, and
    is not queued. *)
Theorem buffered_then_flushed (this : State) (m m' : json) (w : Webview) :
  webviews this = [] ->
  readyWebviews this = [] ->
  (forall n p, postMessageThrows n w p = false) ->
  let this1 := postMessage m this in
  let this2 := markWebviewReady w (resolveWebviewView w this1) in
  let this3 := postMessage m' this2 in
  posts this1 = posts this /\
  pendingMessages this1 = pendingMessages (enqueuePendingMessage m this) /\
  last (pendingMessages this1) = Some (wrap m) /\
  posts this2 =
    posts this ++
    map (fun p => {| target := w; payload := p; threw := false |}) (pendingMessages this1) /\
  pendingMessages this2 = [] /\
  posts this3 = posts this2 ++ [{| target := w; payload := wrap m'; threw := false |}] /\
  pendingMessages this3 = [].
Proof.
  intros Hw Hr Hok this1 this2 this3.
  assert (this1 = enqueuePendingMessage m this) as E1
    by apply (postMessage_none_ready m this Hr).
  assert (last (pendingMessages this1) = Some (wrap m)) as Hlast.
  { rewrite E1. unfold enqueuePendingMessage. simpl.
    destruct (Nat.ltb _ _) eqn:Hlt.
    - destruct (pendingMessages this) as [|a l]; [discriminate|]. simpl.
      apply last_snoc.
    - apply last_snoc. }
  assert (pendingMessages this1 <> []) as Hne
    by (rewrite E1; apply enqueue_nonempty).
  set (this0 := nowReady w (resolveWebviewView w this1)).
  assert (readyWebviews this0 = [w]) as R0 by (unfold this0; rewrite E1; simpl; by rewrite Hr).
  assert (webviews this0 = [w]) as W0 by (unfold this0; rewrite E1; simpl; by rewrite Hw).
  assert (webviewConfigs this0 !! w =
            Some {| host := sidebar; page := Some "chat"; id := None |}) as C0
    by (unfold this0; simpl; apply lookup_insert_eq).
  assert (this2 = flushPendingMessages this0) as E2.
  { unfold this2, this0. apply markWebviewReady_fresh.
    rewrite E1. simpl. by rewrite Hr. }
  destruct (replay_spec w (pendingMessages this0) this0) as (Hs & Hp & Hreg).
  rewrite (replay_accepted w (pendingMessages this0) this0 Hok) in Hs, Hreg.
  assert (existsb threw (map (fun p => {| target := w; payload := p; threw := false |})
                           (pendingMessages this0)) = false) as Hgood.
  { apply accepted_none_threw. }
  rewrite Hgood in Hreg. destruct Hreg as (Hw2 & Hr2 & Hc2).
  assert (pendingMessages this0 = pendingMessages this1) as Q0 by reflexivity.
  destruct (flush_single w this0 R0) as (Q2 & P2 & W2 & R2 & C2);
    [by rewrite Q0 | by rewrite C0 |].
  rewrite <- E2 in Q2, P2, W2, R2, C2.
  rewrite Hs, Q0 in P2. rewrite Hw2, W0 in W2. rewrite Hr2, R0 in R2.
  rewrite Hc2 in C2.
  change (posts this0) with (posts this1) in P2. rewrite E1 in P2 at 1.
  change (posts (enqueuePendingMessage m this)) with (posts this) in P2.
  split; [by rewrite E1|]. split; [by rewrite E1|]. split; [exact Hlast|].
  split; [exact P2|]. split; [exact Q2|].
  destruct (postMessage_spec m' this2) as (Hs3 & _ & _ & Hp3).
  fold this3 in Hs3, Hp3.
  assert (List.filter (eligible this2) (webviews this2) = [w]) as Hel.
  { rewrite W2. simpl. unfold eligible. rewrite R2, C2, C0. simpl.
    unfold has. rewrite bool_decide_eq_true_2 by set_solver. reflexivity. }
  rewrite Hel in Hs3, Hp3. simpl in Hs3, Hp3. rewrite Hok in Hs3, Hp3.
  simpl in Hp3. rewrite Hs3, Hp3, Q2. done.
Qed.



End WithHost.

(** A flush that the first message of an editor page starts finds no webview
    to address: it sends nothing and empties the queue. *)
Remark flush_without_addressee :
  let this := WebViewService.run accepting
                [PostMessage (JNum 1); OpenEditorPage "settings" None false 3] initial in
  let this' := WebViewService.step accepting (DidReceiveMessage 3) this in
  pendingMessages this = [wrap (JNum 1)] /\
  pendingMessages this' = [] /\
  posts this' = [].
Proof. vm_compute. auto. Qed.



Lemma buffered_then_flushed_witness :
  webviews initial = [] /\
  readyWebviews initial = [] /\
  pendingMessages (WebViewService.postMessage accepting (JNum 1) initial) = [wrap (JNum 1)] /\
  posts
    (WebViewService.markWebviewReady accepting 7
       (resolveWebviewView 7 (WebViewService.postMessage accepting (JNum 1) initial))) =
    [{| target := 7; payload := wrap (JNum 1); threw := false |}] /\
  pendingMessages
    (WebViewService.markWebviewReady accepting 7
       (resolveWebviewView 7 (WebViewService.postMessage accepting (JNum 1) initial))) = [].
Proof.
  split; [reflexivity|]. split; [reflexivity|].
  destruct (buffered_then_flushed accepting initial (JNum 1) (JNum 2) 7)
    as (_ & Hq & _ & Hp & He & _).
  - reflexivity.
  - reflexivity.
  - intros n p. reflexivity.
  - split; [exact Hq|]. split; [exact Hp|exact He].
Defined.

Lemma pending_queue_bounded_witness :
  readyWebviews initial = [] /\
  length (numbered 51) = 51 /\
  pendingMessages (WebViewService.run accepting (map PostMessage (numbered 51)) initial) =
    map wrap (tail (numbered 51)).
Proof.
  split; [reflexivity|]. split; [reflexivity|].
  destruct (pending_queue_bounded accepting []) as (_ & _ & _ & Hlast).
  apply (Hlast (JNum 0) (tail (numbered 51))). reflexivity.
Defined.

End WebViewFacts.

(** ** Texts and the matcher *)

Module TextFacts.

Import Js Substring.

Local Open Scope nat_scope.

Lemma app_cons c (s t : string) : String c s +:+ t = String c (s +:+ t).
Proof. reflexivity. Qed.

Lemma app_empty_l (s : string) : EmptyString +:+ s = s.
Proof. reflexivity. Qed.

Lemma app_empty_r (s : string) : s +:+ EmptyString = s.
Proof. induction s as [|c s IH]; [done|]. by rewrite app_cons, IH. Qed.

Lemma app_assoc (s t u : string) : (s +:+ t) +:+ u = s +:+ (t +:+ u).
Proof. induction s as [|c s IH]; [done|]. by rewrite !app_cons, IH. Qed.

Lemma length_app (s t : string) :
  String.length (s +:+ t) = String.length s + String.length t.
Proof. induction s as [|c s IH]; [done|]. rewrite app_cons. simpl. by rewrite IH. Qed.

Lemma app_inv_head (s t u : string) : s +:+ t = s +:+ u -> t = u.
Proof. induction s as [|c s IH]; [done|]. rewrite !app_cons. intros [=]. auto. Qed.

Lemma stripPrefix_Some p s r : stripPrefix p s = Some r <-> s = p +:+ r.
Proof.
  revert s. induction p as [|a p IH]; intros s; simpl.
  - rewrite app_empty_l. split; congruence.
  - destruct s as [|b s]; [split; discriminate|].
    rewrite app_cons. destruct (Ascii.eqb_spec a b) as [->|Hne].
    + rewrite IH. split; [by intros -> | by intros [=]].
    + split; [discriminate | intros [=]; congruence].
Qed.

Lemma stripPrefix_app p r : stripPrefix p (p +:+ r) = Some r.
Proof. by apply stripPrefix_Some. Qed.

Lemma slice_app (a w b : string) :
  slice (String.length a) (String.length w) (a +:+ w +:+ b) = w.
Proof.
  induction a as [|c a IH].
  - rewrite app_empty_l. simpl String.length.
    induction w as [|c w IHw]; [by destruct b|].
    rewrite app_cons. simpl. by rewrite IHw.
  - rewrite app_cons. simpl String.length.
    destruct (String.length w) eqn:Hw.
    + destruct w; [|discriminate]. by destruct a.
    + simpl. exact IH.
Qed.

Lemma slice_prefix (w b : string) : slice 0 (String.length w) (w +:+ b) = w.
Proof. exact (slice_app EmptyString w b). Qed.

Lemma slice_suffix (a b : string) :
  slice (String.length a) (String.length b) (a +:+ b) = b.
Proof. pose proof (slice_app a b EmptyString) as H. by rewrite app_empty_r in H. Qed.

Lemma cut_Some p s a b : cut p s = Some (a, b) -> s = a +:+ p +:+ b.
Proof.
  revert a. induction s as [|c s IH]; intros a; simpl.
  - destruct (stripPrefix p EmptyString) eqn:Hp; [|discriminate].
    intros [= <- <-]. by apply stripPrefix_Some in Hp.
  - destruct (stripPrefix p (String c s)) eqn:Hp.
    + intros [= <- <-]. by apply stripPrefix_Some in Hp.
    + destruct (cut p s) as [[a' b']|]; [|discriminate].
      intros [= <- <-]. rewrite app_cons. f_equal. by apply IH.
Qed.

Lemma cut_None p s : cut p s = None <-> includes s p = false.
Proof.
  induction s as [|c s IH]; simpl; unfold startsWith.
  - destruct (stripPrefix p EmptyString); simpl; split; congruence.
  - destruct (stripPrefix p (String c s)); simpl; [split; discriminate|].
    rewrite <- IH. destruct (cut p s) as [[a b]|]; split; congruence.
Qed.

(** A text without an occurrence has none in what follows a prefix of it. *)
Lemma cut_None_suffix p (u s : string) : cut p (u +:+ s) = None -> cut p s = None.
Proof.
  induction u as [|c u IH]; [done|].
  rewrite app_cons. simpl.
  destruct (stripPrefix p _); [discriminate|].
  destruct (cut p (u +:+ s)) as [[a b]|] eqn:Hc; [discriminate|]. auto.
Qed.

(** Two ends of one text: the shorter is an end of the longer. *)
Lemma suffix_of_suffix (u1 s1 u2 s2 : string) :
  u1 +:+ s1 = u2 +:+ s2 -> String.length s2 <= String.length s1 ->
  exists v, s1 = v +:+ s2.
Proof.
  revert u2. induction u1 as [|c u1 IH]; intros u2 Heq Hlen.
  - exists u2. exact Heq.
  - destruct u2 as [|d u2].
    + rewrite app_empty_l in Heq. subst s2.
      rewrite length_app in Hlen. simpl in Hlen. lia.
    + rewrite !app_cons in Heq. injection Heq as _ Heq. eauto.
Qed.


(** *** The matcher finds only what the pattern describes *)

Lemma positioned_start input before s gs :
  input = before +:+ s -> positioned input (mkState s (String.length before) gs).
Proof. intros H. by exists before. Qed.

Lemma positioned_advance input x w after gs :
  positioned input x -> rest x = w +:+ after ->
  positioned input (mkState after (endIndex x + String.length w) gs).
Proof.
  intros (before & Hin & He) Hr. exists (before +:+ w). simpl.
  by rewrite app_assoc, <- Hr, length_app, He.
Qed.

Lemma starGreedy_sound p s : forall e k z,
  starGreedy p s e k = Some z ->
  exists w after, s = w +:+ after /\ all p w = true /\ k after (e + String.length w) = Some z.
Proof.
  induction s as [|c s IH]; intros e k z; simpl.
  - intros H. exists EmptyString, EmptyString. by rewrite Nat.add_0_r.
  - destruct (p c) eqn:Hp.
    + destruct (starGreedy p s (S e) k) as [r|] eqn:Hg.
      * intros [= <-]. destruct (IH _ _ _ Hg) as (w & after & -> & Hw & Hk).
        exists (String c w), after. simpl. rewrite Hp, Hw.
        by rewrite Nat.add_succ_r.
      * intros H. exists EmptyString, (String c s). by rewrite Nat.add_0_r.
    + intros H. exists EmptyString, (String c s). by rewrite Nat.add_0_r.
Qed.

Lemma starLazy_sound p s : forall e k z,
  starLazy p s e k = Some z ->
  exists w after, s = w +:+ after /\ all p w = true /\ k after (e + String.length w) = Some z.
Proof.
  induction s as [|c s IH]; intros e k z; simpl.
  - destruct (k EmptyString e) eqn:Hk; [|discriminate].
    intros [= <-]. exists EmptyString, EmptyString. by rewrite Nat.add_0_r.
  - destruct (k (String c s) e) eqn:Hk.
    + intros [= <-]. exists EmptyString, (String c s). by rewrite Nat.add_0_r.
    + destruct (p c) eqn:Hp; [|discriminate].
      intros Hl. destruct (IH _ _ _ Hl) as (w & after & -> & Hw & Hk').
      exists (String c w), after. simpl. rewrite Hp, Hw.
      by rewrite Nat.add_succ_r.
Qed.

(** A success of the matcher is a match in the sense of [matches], followed
    by a success of the continuation on what is left. *)
Lemma exec_sound input r : forall x k z,
  positioned input x ->
  exec input r x k = Some z ->
  exists w after gs,
    rest x = w +:+ after /\
    matches r w after gs /\
    k (mkState after (endIndex x + String.length w) (gs ++ groups x)) = Some z.
Proof.
  induction r as [l|p|greedy p|a IHa b IHb|a IHa b IHb|i a IHa|];
    intros x k z Hpos; simpl.
  - destruct (stripPrefix l (rest x)) as [s'|] eqn:Hl; [|discriminate].
    apply stripPrefix_Some in Hl. intros Hk.
    exists l, s', []. split; [done|]. split; [constructor|done].
  - destruct (rest x) as [|c s'] eqn:Hr; [discriminate|].
    destruct (p c) eqn:Hp; [|discriminate]. intros Hk.
    exists (String c EmptyString), s', []. split; [done|].
    split; [by constructor|]. simpl. by rewrite Nat.add_1_r.
  - intros H.
    assert (exists w after, rest x = w +:+ after /\ all p w = true /\
              k (mkState after (endIndex x + String.length w) (groups x)) = Some z)
      as (w & after & Hr & Hw & Hk).
    { destruct greedy; [apply starGreedy_sound in H | apply starLazy_sound in H];
        exact H. }
    exists w, after, []. split; [done|]. split; [by constructor|done].
  - intros H.
    destruct (IHa _ _ _ Hpos H) as (w1 & after1 & g1 & Hr1 & Hm1 & H1).
    pose proof (positioned_advance _ _ _ _ (g1 ++ groups x) Hpos Hr1) as Hpos1.
    destruct (IHb _ _ _ Hpos1 H1) as (w2 & after & g2 & Hr2 & Hm2 & H2).
    simpl in Hr2, H2. subst after1.
    exists (w1 +:+ w2), after, (g2 ++ g1).
    split; [by rewrite app_assoc|]. split; [by constructor|].
    by rewrite length_app, Nat.add_assoc, <- List.app_assoc.
  - destruct (exec input a x k) as [r|] eqn:Ha.
    + intros [= <-]. destruct (IHa _ _ _ Hpos Ha) as (w & after & gs & Hr & Hm & Hk).
      exists w, after, gs. split; [done|]. split; [by apply MAltL|done].
    + intros Hb. destruct (IHb _ _ _ Hpos Hb) as (w & after & gs & Hr & Hm & Hk).
      exists w, after, gs. split; [done|]. split; [by apply MAltR|done].
  - intros H.
    destruct (IHa _ _ _ Hpos H) as (w & after & gs & Hr & Hm & Hk).
    simpl in Hk. exists w, after, ((i, w) :: gs).
    split; [done|]. split; [by constructor|].
    destruct Hpos as (before & Hin & He).
    replace (endIndex x + String.length w - endIndex x) with (String.length w) in Hk by lia.
    rewrite Hin, Hr, He, slice_app in Hk. by rewrite He.
  - destruct (rest x) eqn:Hr; [|discriminate]. intros Hk.
    exists EmptyString, EmptyString, []. split; [done|]. split; [constructor|].
    simpl. rewrite Nat.add_0_r. destruct x. simpl in *. by subst.
Qed.

(** A match that [text.match(r)] reports lies in the text, where the result
    says, and is a match of the pattern. *)
Lemma searchFrom_sound input r s : forall before m,
  input = before +:+ s ->
  searchFrom input r s (String.length before) = Some m ->
  exists skipped w after,
    s = skipped +:+ w +:+ after /\
    matches r w after (captured m) /\
    index m = String.length (before +:+ skipped) /\
    lastIndex m = String.length (before +:+ skipped) + String.length w.
Proof.
  induction s as [|c s IH]; intros before m Hin; simpl.
  - destruct (exec _ _ _ _) as [y|] eqn:He; [|discriminate].
    intros [= <-]. simpl.
    destruct (exec_sound _ _ _ _ _ (positioned_start _ _ _ [] Hin) He)
      as (w & after & gs & Hr & Hm & [= <-]).
    simpl in *. exists EmptyString, w, after.
    rewrite app_empty_r, List.app_nil_r. auto.
  - destruct (exec _ _ _ _) as [y|] eqn:He.
    + intros [= <-]. simpl.
      destruct (exec_sound _ _ _ _ _ (positioned_start _ _ _ [] Hin) He)
        as (w & after & gs & Hr & Hm & [= <-]).
      simpl in *. exists EmptyString, w, after.
      rewrite app_empty_r, List.app_nil_r. auto.
    + intros Hs.
      assert (S (String.length before) =
              String.length (before +:+ String c EmptyString)) as Hlen
        by (rewrite length_app; simpl; lia).
      rewrite Hlen in Hs.
      destruct (IH (before +:+ String c EmptyString) m) as
        (skipped & w & after & -> & Hm & Hi & Hl); [by rewrite app_assoc|exact Hs|].
      exists (String c skipped), w, after.
      rewrite app_assoc in Hi, Hl. auto.
Qed.

Lemma search_sound r input m :
  search r input = Some m ->
  exists before w after,
    input = before +:+ w +:+ after /\
    matches r w after (captured m) /\
    index m = String.length before /\
    lastIndex m = String.length before + String.length w.
Proof.
  intros H. destruct (searchFrom_sound input r input EmptyString m eq_refl H)
    as (skipped & w & after & Hin & Hm & Hi & Hl).
  exists skipped, w, after. auto.
Qed.


(** *** Tags: the pattern [open([\s\S]*?)close] is a search for two substrings *)

Lemma starLazy_any_cut closing (F : string -> nat -> MatchState) s : forall e,
  starLazy anyChar s e
    (fun s' e' =>
       match stripPrefix closing s' with
       | Some s'' => Some (F s'' e')
       | None => None
       end) =
  match cut closing s with
  | Some (a, b) => Some (F b (e + String.length a))
  | None => None
  end.
Proof.
  induction s as [|c s IH]; intros e; simpl.
  - destruct (stripPrefix closing EmptyString); [by rewrite Nat.add_0_r|done].
  - destruct (stripPrefix closing (String c s)); [by rewrite Nat.add_0_r|].
    rewrite IH. destruct (cut closing s) as [[a b]|]; [|done].
    simpl. by rewrite Nat.add_succ_r.
Qed.

Lemma exec_element input opening closing x :
  exec input (Cat (Lit opening) (Cat (Group 1 (Star false anyChar)) (Lit closing))) x Some =
  match stripPrefix opening (rest x) with
  | Some s1 =>
      match cut closing s1 with
      | Some (a, b) =>
          Some (mkState b
                  (endIndex x + String.length opening + String.length a
                   + String.length closing)
                  ((1, slice (endIndex x + String.length opening)
                         (endIndex x + String.length opening + String.length a
                          - (endIndex x + String.length opening)) input)
                   :: groups x))
      | None => None
      end
  | None => None
  end.
Proof.
  simpl. destruct (stripPrefix opening (rest x)) as [s1|]; [|done]. simpl.
  apply (starLazy_any_cut closing
           (fun s'' e' =>
              mkState s'' (e' + String.length closing)
                ((1, slice (endIndex x + String.length opening)
                       (e' - (endIndex x + String.length opening)) input)
                 :: groups x))).
Qed.

Lemma searchFrom_element input opening closing s : forall before,
  input = before +:+ s ->
  match searchFrom input
          (Cat (Lit opening) (Cat (Group 1 (Star false anyChar)) (Lit closing)))
          s (String.length before) with
  | Some m => Some (group 1 (captured m))
  | None => None
  end = between opening closing s.
Proof.
  unfold between.
  induction s as [|c s IH]; intros before Hin;
    cbn [searchFrom]; rewrite exec_element; cbn [rest endIndex groups cut].
  - destruct (stripPrefix opening EmptyString) as [s1|] eqn:Ho; [|done].
    destruct (cut closing s1) as [[a b]|] eqn:Hc; [|done].
    apply stripPrefix_Some in Ho. apply cut_Some in Hc.
    cbn [captured group Nat.eqb]. f_equal.
    replace (_ + _ - _) with (String.length a) by lia.
    rewrite Hin, Ho, Hc, <- length_app, <- app_assoc. apply slice_app.
  - destruct (stripPrefix opening (String c s)) as [s1|] eqn:Ho.
    + destruct (cut closing s1) as [[a b]|] eqn:Hc.
      * apply stripPrefix_Some in Ho. apply cut_Some in Hc.
        cbn [captured group Nat.eqb]. f_equal.
        replace (_ + _ - _) with (String.length a) by lia.
        rewrite Hin, Ho, Hc, <- length_app, <- app_assoc. apply slice_app.
      * assert (S (String.length before) =
                String.length (before +:+ String c EmptyString)) as Hlen
          by (rewrite length_app; simpl; lia).
        rewrite Hlen, IH by (by rewrite app_assoc).
        destruct (cut opening s) as [[u s1']|] eqn:Ho'; [|done].
        apply stripPrefix_Some in Ho. apply cut_Some in Ho'.
        destruct (suffix_of_suffix opening s1 (String c u +:+ opening) s1') as [v Hv].
        { rewrite <- Ho, app_assoc, app_cons. by f_equal. }
        { assert (String.length (String c s) = String.length (opening +:+ s1)) as Hl
            by (by rewrite Ho).
          rewrite Ho' in Hl. simpl in Hl. rewrite !length_app in Hl. lia. }
        rewrite Hv in Hc. by rewrite (cut_None_suffix _ _ _ Hc).
    + assert (S (String.length before) =
              String.length (before +:+ String c EmptyString)) as Hlen
        by (rewrite length_app; simpl; lia).
      rewrite Hlen, IH by (by rewrite app_assoc).
      destruct (cut opening s) as [[u s1']|]; [|done]. done.
Qed.

(** [text.match(/<tag>([\s\S]*?)<\/tag>/)?.[1]] is the text between the first
    opening tag and the first closing tag after it. *)
Lemma match1_reTag tag text :
  match1 (Parser.reTag tag) text =
    between ("<" +:+ tag +:+ ">") ("</" +:+ tag +:+ ">") text.
Proof.
  unfold match1, search, Parser.reTag.
  apply (searchFrom_element text _ _ text EmptyString eq_refl).
Qed.

End TextFacts.

(** ** More on the classifier *)

Module ParserMore.

Import Js Value Parser Substring Blocks Samples TextFacts.

Lemma includes_marker_None tag text :
  includes text ("<" +:+ tag +:+ ">") = false ->
  match1 (reTag tag) text = None.
Proof.
  intros H. rewrite match1_reTag. unfold between.
  apply cut_None in H. by rewrite H.
Qed.

Lemma trimStart_head s : startsWithSpace (trimStart s) = false.
Proof.
  induction s as [|c s IH]; [done|]. simpl.
  destruct (isWhiteSpace c) eqn:Hc; [exact IH|]. simpl. exact Hc.
Qed.

Lemma trimEnd_head s : startsWithSpace s = false -> startsWithSpace (trimEnd s) = false.
Proof.
  destruct s as [|c s]; [done|]. simpl. intros Hc.
  destruct (trimEnd s); [by rewrite Hc|exact Hc].
Qed.

Lemma trimEnd_tail s : endsWithSpace (trimEnd s) = false.
Proof.
  induction s as [|c s IH]; [done|]. simpl.
  destruct (trimEnd s) as [|d t] eqn:Ht.
  - destruct (isWhiteSpace c) eqn:Hc; [done|]. simpl. exact Hc.
  - exact IH.
Qed.

(** The result of [trim] neither starts nor ends with a white space. *)
Lemma trim_bare s : startsWithSpace (trim s) = false /\ endsWithSpace (trim s) = false.
Proof.
  unfold trim. split; [apply trimEnd_head, trimStart_head | apply trimEnd_tail].
Qed.

Lemma filled_orElse v fallback :
  filled fallback fallback = true -> filled (orElse v fallback) fallback = true.
Proof.
  intros Hf. unfold orElse. destruct v as [x|]; [|exact Hf].
  destruct (truthy x) eqn:Ht; [|exact Hf]. unfold filled. by rewrite Ht.
Qed.

Lemma toEntry_populated entry d : toEntry entry = Some d -> populated d = true.
Proof.
  unfold toEntry, populated.
  destruct entry; try discriminate; intros [= <-];
    cbn [entryFilePath entryLine entryColumn entryMessage entryCode entrySeverity];
    rewrite ?filled_orElse; reflexivity.
Qed.

Lemma entries_populated parsed ds :
  Forall2 (fun entry d => toEntry entry = Some d) parsed ds ->
  Forall (fun d => populated d = true) ds.
Proof.
  induction 1 as [|entry d parsed ds Hd _ IH]; constructor; [|exact IH].
  by eapply toEntry_populated.
Qed.

Lemma mapM_toEntry_Some parsed :
  ~ In JNull parsed ->
  exists ds, mapM toEntry parsed = Some ds /\
             Forall2 (fun entry d => toEntry entry = Some d) parsed ds.
Proof.
  induction parsed as [|entry parsed IH]; intros Hn.
  - exists []. split; [reflexivity|constructor].
  - destruct IH as (ds & Hm & Hf); [intros ?; apply Hn; by right|].
    assert (exists d, toEntry entry = Some d) as [d Hd].
    { destruct entry; try (eexists; reflexivity). exfalso. apply Hn. by left. }
    exists (d :: ds). split; [|by constructor].
    simpl. rewrite Hd. simpl. by rewrite Hm.
Qed.

(** *** What the patterns of a path capture *)

Ltac inv_matches :=
  repeat match goal with
  | H : matches (Plus _ _) _ _ _ |- _ => unfold Plus in H
  | H : matches (Opt _) _ _ _ |- _ => unfold Opt in H
  | H : matches (Lit _) _ _ _ |- _ => inversion H; subst; clear H
  | H : matches (Class _) _ _ _ |- _ => inversion H; subst; clear H
  | H : matches (Star _ _) _ _ _ |- _ => inversion H; subst; clear H
  | H : matches (Cat _ _) _ _ _ |- _ => inversion H; subst; clear H
  | H : matches (Alt _ _) _ _ _ |- _ => inversion H; subst; clear H
  | H : matches (Group _ _) _ _ _ |- _ => inversion H; subst; clear H
  end.

Lemma includes_app (a p b : string) : includes (a +:+ p +:+ b) p = true.
Proof.
  induction a as [|c a IH].
  - rewrite app_empty_l. destruct (p +:+ b) eqn:E; simpl; unfold startsWith;
      rewrite <- E, stripPrefix_app; reflexivity.
  - rewrite app_cons. simpl. rewrite IH. apply orb_true_r.
Qed.

Lemma reFile_captures text m :
  search reFile text = Some m ->
  exists c rest before after,
    group 1 (captured m) = String c rest /\
    all (notChar ":") (String c rest) = true /\
    text = before +:+ ("from " +:+ String c rest +:+ ":") +:+ after.
Proof.
  intros H. apply search_sound in H as (before & w & after & Hin & Hm & _).
  unfold reFile in Hm. inv_matches.
  simpl.
  eexists _, _, before, after. split; [reflexivity|].
  split.
  - simpl. match goal with H : notChar _ _ = true |- _ => rewrite H end. assumption.
  - reflexivity.
Qed.

Lemma reOpened_captures text m :
  search reOpened text = Some m ->
  exists c rest before after,
    group 1 (captured m) = String c rest /\
    all dot (String c rest) = true /\
    (text = before +:+ ("opened the file " +:+ String c rest +:+ " in ") +:+ after \/
     text = before +:+ ("opened file " +:+ String c rest +:+ " in ") +:+ after).
Proof.
  intros H. apply search_sound in H as (before & w & after & Hin & Hm & _).
  unfold reOpened in Hm. inv_matches.
  all: simpl.
  all: eexists _, _, before, _.
  all: (split; [reflexivity|]).
  all: (split; [simpl; match goal with H : dot _ = true |- _ => rewrite H end; assumption|]).
  all: rewrite ?app_assoc; simpl.
  all: first [left; reflexivity | right; reflexivity].
Qed.

(** [s.split('/').pop()]: what follows the last slash, or all of [s]. *)
Lemma includes_slash c s :
  includes (String c s) "/" = Ascii.eqb "/" c || includes s "/".
Proof.
  cbn [includes]. f_equal. unfold startsWith. cbn [stripPrefix].
  by destruct (Ascii.eqb "/" c).
Qed.

Lemma all_no_slash s : includes s "/" = false -> all (notChar "/") s = true.
Proof.
  induction s as [|c s IH]; [done|]. rewrite includes_slash.
  cbn [all]. unfold notChar at 1.
  destruct (Ascii.eqb "/" c); simpl; [discriminate|exact IH].
Qed.

Lemma lastSegment_spec s :
  exists dir,
    s = dir +:+ lastSegment s /\
    all (notChar "/") (lastSegment s) = true /\
    (dir = EmptyString \/ endsWithSlash dir = true).
Proof.
  induction s as [|c s IH]; [by exists EmptyString; auto|].
  simpl. destruct (includes s "/") eqn:Hs.
  - destruct IH as (dir & Hd & Ha & He).
    exists (String c dir). rewrite app_cons, <- Hd. split; [done|]. split; [done|].
    right. destruct He as [->|He].
    + rewrite app_empty_l in Hd. exfalso.
      rewrite <- Hd in Ha. clear -Hs Ha.
      induction s as [|d s IH]; [discriminate|].
      rewrite includes_slash in Hs. cbn [all] in Ha. unfold notChar at 1 in Ha.
      destruct (Ascii.eqb "/" d); simpl in *; [discriminate|auto].
    + simpl. destruct dir; [discriminate|exact He].
  - destruct (Ascii.eqb_spec c "/") as [->|Hne].
    + exists "/"%string. split; [reflexivity|]. split; [by apply all_no_slash|]. by right.
    + exists EmptyString. split; [reflexivity|]. split; [|by left].
      simpl. rewrite (all_no_slash s Hs), andb_true_r.
      unfold notChar. apply negb_true_iff, Ascii.eqb_neq. congruence.
Qed.

(** *** [replace(/\s*$/, '')] removes the white space at the end *)

Lemma all_trimEnd s : all isWhiteSpace s = true <-> trimEnd s = EmptyString.
Proof.
  induction s as [|c s IH]; [done|]. simpl.
  destruct (trimEnd s) as [|d t].
  - destruct (isWhiteSpace c); simpl; [|split; discriminate].
    split; [done|]. intros _. by apply IH.
  - split; [|discriminate]. intros H. apply andb_true_iff in H as [_ H].
    apply IH in H. discriminate.
Qed.

Lemma trimEnd_prefix s : exists w, s = trimEnd s +:+ w.
Proof.
  induction s as [|c s IH]; [by exists EmptyString|].
  simpl. destruct IH as [w Hw]. destruct (trimEnd s) as [|d t].
  - destruct (isWhiteSpace c).
    + by exists (String c s).
    + exists s. reflexivity.
  - exists w. rewrite app_cons. by f_equal.
Qed.

Lemma starGreedy_eos s : forall e gs,
  starGreedy isWhiteSpace s e
    (fun s' e' =>
       match s' with
       | EmptyString => Some (mkState s' e' gs)
       | String _ _ => None
       end) =
  if all isWhiteSpace s then Some (mkState EmptyString (e + String.length s) gs) else None.
Proof.
  induction s as [|c s IH]; intros e gs; cbn [starGreedy all String.length].
  - by rewrite Nat.add_0_r.
  - destruct (isWhiteSpace c); cbn [andb]; [|done].
    rewrite IH. destruct (all isWhiteSpace s); [|done].
    by rewrite Nat.add_succ_r.
Qed.

Lemma searchFrom_trailing input s : forall i,
  searchFrom input reTrailingSpace s i =
    Some (mkResult (i + String.length (trimEnd s)) (i + String.length s) []).
Proof.
  assert (forall x, exec input reTrailingSpace x Some =
            if all isWhiteSpace (rest x)
            then Some (mkState EmptyString (endIndex x + String.length (rest x)) (groups x))
            else None) as Hexec.
  { intros x. unfold reTrailingSpace. cbn [exec rest]. apply starGreedy_eos. }
  induction s as [|c s IH]; intros i; cbn [searchFrom]; rewrite Hexec; cbn [rest].
  - simpl. by rewrite Nat.add_0_r.
  - destruct (all isWhiteSpace (String c s)) eqn:Ha.
    + apply all_trimEnd in Ha. rewrite Ha. simpl. by rewrite Nat.add_0_r.
    + rewrite IH. cbn [String.length]. f_equal. f_equal; [|lia].
      cbn [trimEnd]. destruct (trimEnd s) as [|d t] eqn:Ht.
      * apply all_trimEnd in Ht. cbn [all] in Ha. rewrite Ht, andb_true_r in Ha.
        rewrite Ha. simpl. lia.
      * simpl. lia.
Qed.

Lemma slice_zero i s : slice i 0 s = EmptyString.
Proof. by destruct i, s. Qed.

Lemma replace_trailing s : replaceFirst reTrailingSpace s = trimEnd s.
Proof.
  unfold replaceFirst, search. rewrite searchFrom_trailing. simpl.
  rewrite Nat.sub_diag, slice_zero, app_empty_r.
  destruct (trimEnd_prefix s) as [w Hw]. rewrite Hw at 2. apply slice_prefix.
Qed.

Lemma parseDigits_nonneg s : forall acc, 0 <= acc -> 0 <= parseDigits acc s.
Proof.
  induction s as [|c s IH]; intros acc Hacc; simpl; [done|].
  destruct (isDigit c) eqn:Hd; [|done].
  apply IH. unfold isDigit in Hd. apply andb_true_iff in Hd as [Hd _].
  apply N.leb_le in Hd. unfold digitValue. lia.
Qed.

Lemma app_not_empty (s t : string) : s <> EmptyString -> s +:+ t <> EmptyString.
Proof. by destruct s. Qed.

Lemma fileName_spec path :
  path <> EmptyString ->
  fileName path <> EmptyString /\
  exists dir,
    path = dir +:+ fileName path /\
    (dir = EmptyString \/
     endsWithSlash dir = true /\ all (notChar "/") (fileName path) = true).
Proof.
  intros Hne. unfold fileName.
  destruct (lastSegment_spec path) as (dir & Hd & Ha & He).
  destruct (String.eqb_spec (lastSegment path) "") as [E|E].
  - split; [done|]. exists EmptyString. split; [done|by left].
  - split; [done|]. exists dir. split; [done|].
    destruct He as [->|He]; [by left|by right].
Qed.

(** X6. A selection block made by [parseSelection] names a path that is not
    empty, holds no colon and stands in the text between "from " and a colon;
    its label is not empty and starts with the file name of the path; it has
    an end line only with a start line, its line numbers are not negative,
    and its snippet is the captured text without the white space at its end. *)
Theorem selection_block_shape (text : string) (block : ContentBlockType) :
  parseSelection text = Some block ->
  exists b,
    block = Selection b /\
    filePath b <> EmptyString /\
    all (notChar ":") (filePath b) = true /\
    includes text ("from " +:+ filePath b +:+ ":") = true /\
    startsWith (label b) (fileName (filePath b)) = true /\
    label b <> EmptyString /\
    (startLine b = None -> endLine b = None) /\
    lineNumber (startLine b) = true /\
    lineNumber (endLine b) = true /\
    (forall snippet, selectedText b = Some snippet ->
       endsWithSpace snippet = false /\
       exists captured,
         match1 reSnippet text = Some captured /\ snippet = trimEnd captured).
Proof.
  unfold parseSelection. intros H.
  destruct (search reFile text) as [fileMatch|] eqn:Hfile; [|discriminate].
  destruct (reFile_captures _ _ Hfile) as (c & rest & before & after & Hg & Hall & Htext).
  set (path := group 1 (captured fileMatch)) in *.
  assert (path <> EmptyString) as Hpath by (rewrite Hg; discriminate).
  destruct (fileName_spec path Hpath) as (Hname & _).
  change (if String.eqb (lastSegment path) "" then path else lastSegment path)
    with (fileName path) in H.
  assert (forall s, 0 <= parseInt s) as Hint
    by (intros s; apply parseDigits_nonneg; lia).
  assert (forall t, startsWith (fileName path +:+ t) (fileName path) = true) as Hstart.
  { intros t. unfold startsWith. by rewrite stripPrefix_app. }
  assert (startsWith (fileName path) (fileName path) = true) as Hself.
  { rewrite <- (app_empty_r (fileName path)) at 1. apply Hstart. }
  assert (exists lines,
    (let '(startLine, endLine) := lines in
     (startLine = None -> endLine = None) /\
     lineNumber startLine = true /\ lineNumber endLine = true) /\
    lines =
      match search reLines text with
      | Some linesMatch =>
          (Some (parseInt (group 1 (captured linesMatch))),
           Some (parseInt (group 2 (captured linesMatch))))
      | None =>
          match search reLine text with
          | Some singleLineMatch =>
              (Some (parseInt (group 1 (captured singleLineMatch))), None)
          | None => (None, None)
          end
      end) as (lines & Hlines & Elines).
  { eexists. split; [|reflexivity].
    destruct (search reLines text); [|destruct (search reLine text)];
      simpl; repeat split; try done; apply Z.leb_le, Hint. }
  rewrite <- Elines in H. destruct lines as [sl el].
  destruct Hlines as (Hse & Hsl & Hel).
  injection H as <-. eexists. split; [reflexivity|]. cbn [filePath label startLine endLine selectedText].
  split; [done|]. split; [by rewrite Hg|].
  split; [rewrite Htext, Hg; apply includes_app|].
  split.
  { repeat match goal with |- context [if ?b then _ else _] => destruct b end;
      first [apply Hstart | apply Hself]. }
  split.
  { repeat match goal with |- context [if ?b then _ else _] => destruct b end;
      first [by apply app_not_empty | done]. }
  split; [done|]. split; [done|]. split; [done|].
  intros snippet Hs. unfold match1.
  destruct (search reSnippet text) as [snippetMatch|]; [|discriminate].
  injection Hs as <-. rewrite replace_trailing.
  split; [apply trimEnd_tail|]. eexists. split; reflexivity.
Qed.

(** X7. An opened-file block made by [parseOpenedFile] names a path that is
    not empty, holds no line terminator and stands in the text after
    "opened the file " or "opened file " and before " in "; its label is not
    empty and is the end of the path: the whole path, or what follows its
    last slash. *)
Theorem opened_file_block_shape (text : string) (block : ContentBlockType) :
  parseOpenedFile text = Some block ->
  exists path name,
    block = OpenedFile path name /\
    path <> EmptyString /\
    all dot path = true /\
    (includes text ("opened the file " +:+ path +:+ " in ") = true \/
     includes text ("opened file " +:+ path +:+ " in ") = true) /\
    name = fileName path /\
    name <> EmptyString /\
    exists dir,
      path = dir +:+ name /\
      (dir = EmptyString \/
       endsWithSlash dir = true /\ all (notChar "/") name = true).
Proof.
  unfold parseOpenedFile. intros H.
  destruct (search reOpened text) as [m|] eqn:Hm; [|discriminate].
  destruct (reOpened_captures _ _ Hm) as (c & rest & before & after & Hg & Hall & Htext).
  injection H as <-. eexists _, _. split; [reflexivity|].
  set (path := group 1 (captured m)) in *.
  assert (path <> EmptyString) as Hpath by (rewrite Hg; discriminate).
  split; [done|]. split; [by rewrite Hg|].
  split.
  { rewrite Hg. destruct Htext as [-> | ->]; [left|right]; apply includes_app. }
  split; [reflexivity|].
  apply (fileName_spec path Hpath).
Qed.

(** The body that [parseDiagnostics] reads, as two searches for tags. *)
Lemma diagnosticsBody_between text :
  diagnosticsBody text =
    between "<post-tool-use-hook>" "</post-tool-use-hook>" text
      ≫= between "<ide_diagnostics>" "</ide_diagnostics>".
Proof.
  unfold diagnosticsBody. rewrite match1_reTag.
  change ("<" +:+ "post-tool-use-hook" +:+ ">") with "<post-tool-use-hook>".
  change ("</" +:+ "post-tool-use-hook" +:+ ">") with "</post-tool-use-hook>".
  destruct (between "<post-tool-use-hook>" "</post-tool-use-hook>" text) as [hook|];
    [|reflexivity].
  simpl. apply match1_reTag.
Qed.

Section WithEngine.

Variable JSON_parse : string -> option json.

Local Abbreviation parseTextBlock := (parseTextBlock JSON_parse).
Local Abbreviation parseBlock := (parseBlock JSON_parse).
Local Abbreviation parseDiagnostics := (parseDiagnostics JSON_parse).
Local Abbreviation parseFragments := (parseFragments JSON_parse).
Local Abbreviation parseMessageContent := (parseMessageContent JSON_parse).

(** X1. A text that is no key of the interruption table, holds none of the
    six markers and is no rejection notice is classified as one plain text
    block with the text unchanged. *)
Theorem plain_text_unchanged (text : string) :
  INTERRUPT_MESSAGES text = None ->
  Forall (fun marker => includes text marker = false) markers ->
  isRejection text = false ->
  parseTextBlock text = [createTextBlock text] /\
  parseMessageContent (Some [textFragment text]) = Some [createTextBlock text].
Proof.
  intros Hi Hm Hr. unfold markers in Hm.
  repeat match goal with
         | H : Forall _ (_ :: _) |- _ => apply Forall_cons in H as [? H]
         end.
  assert (parseTextBlock text = [createTextBlock text]) as Hp.
  { unfold Parser.parseTextBlock, tryRule, parseTextTail, parseSlashCommandText.
    rewrite Hi.
    repeat match goal with H : includes text _ = false |- _ => rewrite H; clear H end.
    simpl. rewrite (includes_marker_None "command-name") by assumption.
    by rewrite Hr. }
  split; [exact Hp|].
  unfold Parser.parseMessageContent. cbn [Parser.parseFragments].
  rewrite ParserFacts.parseBlock_text, Hp. reflexivity.
Qed.

(** X2. [parseSlashCommandResult] returns the trimmed text between the first
    stderr opening tag and the first stderr closing tag after it, marked as
    an error, whatever else the text holds; without such a pair, the same for
    the stdout tags, not marked; and nothing when neither pair is there. The
    text of the block has no white space at either end. *)
Theorem slash_command_result_between (text : string) :
  parseSlashCommandResult text =
    match between "<local-command-stderr>" "</local-command-stderr>" text with
    | Some err => Some (SlashCommandResult (trim err) true)
    | None =>
        match between "<local-command-stdout>" "</local-command-stdout>" text with
        | Some out => Some (SlashCommandResult (trim out) false)
        | None => None
        end
    end /\
  (forall output isError,
     parseSlashCommandResult text = Some (SlashCommandResult output isError) ->
     startsWithSpace output = false /\ endsWithSpace output = false).
Proof.
  unfold parseSlashCommandResult. rewrite !match1_reTag. split; [reflexivity|].
  intros output isError H.
  repeat match type of H with
         | match ?b with _ => _ end = _ => destruct b
         end; [| |discriminate];
    injection H as <- _; apply trim_bare.
Qed.

(** X4. When the body of the diagnostics tag parses to an array without a
    null element, [parseDiagnostics] returns a diagnostics block with one
    entry for each element, in the order of the array, and every field of
    every entry holds a truthy value of the element or the default of the
    field. *)
Theorem diagnostics_one_entry_per_element (text body : string) (parsed : list json) :
  between "<post-tool-use-hook>" "</post-tool-use-hook>" text
    ≫= between "<ide_diagnostics>" "</ide_diagnostics>" = Some body ->
  JSON_parse body = Some (JArr parsed) ->
  ~ In JNull parsed ->
  exists ds,
    parseDiagnostics text = Some (Diagnostics ds) /\
    Forall2 (fun entry d => toEntry entry = Some d) parsed ds /\
    length ds = length parsed /\
    Forall (fun d => populated d = true) ds.
Proof.
  intros Hb Hp Hn.
  destruct (mapM_toEntry_Some parsed Hn) as (ds & Hm & Hf).
  exists ds. split; [|split; [exact Hf|split]].
  - rewrite ParserFacts.parseDiagnostics_body, diagnosticsBody_between.
    by rewrite Hb, Hp, Hm.
  - symmetry. by eapply Forall2_length.
  - by eapply entries_populated.
Qed.

(** X3. [parseSlashCommandText] returns nothing unless the text holds a
    command-name opening tag with a closing tag after it; then it joins the
    trimmed name and the trimmed text between the command-args tags (empty
    when that pair is missing) with one space, and trims the result, which
    has no white space at either end. *)
Theorem slash_command_text_between (text : string) :
  parseSlashCommandText text =
    match between "<command-name>" "</command-name>" text with
    | None => None
    | Some name =>
        Some (trim (trim name +:+ " " +:+
                    match between "<command-args>" "</command-args>" text with
                    | Some args => trim args
                    | None => ""
                    end))
    end /\
  (forall command, parseSlashCommandText text = Some command ->
     startsWithSpace command = false /\ endsWithSpace command = false).
Proof.
  unfold parseSlashCommandText. rewrite !match1_reTag. split; [reflexivity|].
  intros command H.
  match type of H with
  | match ?b with _ => _ end = _ => destruct b
  end; [|discriminate].
  injection H as <-. apply trim_bare.
Qed.

(** X5. The blocks of two lists put end to end are the blocks of the first
    followed by the blocks of the second, and the classifier throws on the
    whole exactly when it throws on a part; it never returns more blocks
    than it was given fragments. *)
Theorem content_splits (first second : list json) :
  parseMessageContent (Some (first ++ second)) =
    match parseMessageContent (Some first), parseMessageContent (Some second) with
    | Some a, Some b => Some (a ++ b)
    | _, _ => None
    end /\
  (forall blocks, parseMessageContent (Some first) = Some blocks ->
     (length blocks <= length first)%nat).
Proof.
  unfold Parser.parseMessageContent. split.
  - induction first as [|raw first IH]; simpl.
    + by destruct (parseFragments second []).
    + destruct (parseBlock raw) as [parsed|]; [|done]. simpl.
      rewrite (ParserFacts.parseFragments_app _ (first ++ second) parsed), IH.
      rewrite (ParserFacts.parseFragments_app _ first parsed).
      destruct (parseFragments first []) as [a|]; [|done].
      destruct (parseFragments second []) as [b|]; [|done].
      by rewrite List.app_assoc.
  - induction first as [|raw first IH]; intros blocks; simpl.
    + intros [= <-]. simpl. lia.
    + destruct (parseBlock raw) as [parsed|] eqn:Hb; [|discriminate]. simpl.
      rewrite (ParserFacts.parseFragments_app _ first parsed).
      destruct (parseFragments first []) as [a|]; [|discriminate].
      intros [= <-]. rewrite List.length_app.
      assert (convertible raw = true) as Hc.
      { destruct (convertible raw) eqn:Hc; [done|].
        apply (ParserFacts.parseBlock_throws JSON_parse) in Hc. congruence. }
      destruct (ParserFacts.parseBlock_convertible JSON_parse raw Hc)
        as (bs & Hbs & Hlen & _).
      assert (bs = parsed) as -> by congruence.
      specialize (IH a eq_refl). lia.
Qed.

End WithEngine.

Lemma plain_text_witness :
  INTERRUPT_MESSAGES "hello world" = None /\
  Forall (fun marker => includes "hello world" marker = false) markers /\
  isRejection "hello world" = false /\
  Parser.parseTextBlock JsonText.parse "hello world" = [createTextBlock "hello world"].
Proof.
  split; [reflexivity|]. split; [repeat constructor|]. split; [reflexivity|].
  apply (plain_text_unchanged JsonText.parse "hello world");
    [reflexivity | repeat constructor | reflexivity].
Defined.

Lemma selection_block_shape_witness :
  parseSelection selectionExample = Some Cases.selectionExampleBlock /\
  exists b,
    Cases.selectionExampleBlock = Selection b /\
    all (notChar ":") (filePath b) = true /\ label b <> EmptyString.
Proof.
  split; [vm_compute; reflexivity|].
  destruct (selection_block_shape selectionExample Cases.selectionExampleBlock)
    as (b & E & _ & Hc & _ & _ & Hl & _); [vm_compute; reflexivity|].
  exists b. auto.
Defined.

Lemma opened_file_witness :
  parseOpenedFile Cases.openedExample = Some (OpenedFile "/w/src/a.ts" "a.ts") /\
  exists path name,
    OpenedFile "/w/src/a.ts" "a.ts" = OpenedFile path name /\
    name = fileName path /\ name <> EmptyString.
Proof.
  split; [vm_compute; reflexivity|].
  destruct (opened_file_block_shape Cases.openedExample (OpenedFile "/w/src/a.ts" "a.ts"))
    as (path & name & E & _ & _ & _ & Hn & Hl & _); [vm_compute; reflexivity|].
  exists path, name. auto.
Defined.

Lemma diagnostics_witness :
  between "<post-tool-use-hook>" "</post-tool-use-hook>" Cases.diagnosticsText
    ≫= between "<ide_diagnostics>" "</ide_diagnostics>" = Some Cases.diagnosticsJson /\
  JsonText.parse Cases.diagnosticsJson = Some (JArr [JObj [("message", JStr "unused")]]) /\
  ~ In JNull [JObj [("message", JStr "unused")]] /\
  exists ds,
    Parser.parseDiagnostics JsonText.parse Cases.diagnosticsText = Some (Diagnostics ds) /\
    length ds = 1%nat.
Proof.
  assert (~ In JNull [JObj [("message", JStr "unused")]]) as Hn
    by (simpl; intros [H|[]]; discriminate).
  split; [vm_compute; reflexivity|]. split; [vm_compute; reflexivity|].
  split; [exact Hn|].
  destruct (diagnostics_one_entry_per_element JsonText.parse Cases.diagnosticsText
              Cases.diagnosticsJson [JObj [("message", JStr "unused")]])
    as (ds & E & _ & Hl & _);
    [vm_compute; reflexivity | vm_compute; reflexivity | exact Hn |].
  exists ds. auto.
Defined.

End ParserMore.

(** ** More on the selection state *)

Module SelectionMore.

Import SelectionState SelectionTrace.

Local Open Scope nat_scope.

Lemma initial_coherent : coherent initial.
Proof. repeat split; simpl; try done. Qed.

Lemma set_coherent selection optAutoInclude this :
  coherent this -> coherent (set selection optAutoInclude this).
Proof.
  intros (Hl & Hp & Hn). unfold coherent, set.
  destruct selection as [sel|]; cbn [negb orb andb lastSelection lastSignature
      pendingAutoInclude pendingSignature];
    [|repeat split; simpl; done].
  destruct (default false optAutoInclude); cbn [lastSelection lastSignature
      pendingAutoInclude pendingSignature].
  { repeat split; simpl; done. }
  destruct (signatureEq (pendingSignature this) (Some (serialize sel))) eqn:Hs;
    cbn [negb lastSelection lastSignature pendingAutoInclude pendingSignature].
  - split; [done|]. split.
    + intros Hpend. split; [|done].
      unfold signatureEq in Hs. destruct (pendingSignature this) as [x|]; [|done].
      apply String.eqb_eq in Hs. by subst.
    + exact Hn.
  - repeat split; simpl; done.
Qed.

Lemma call_coherent c this : coherent this -> coherent (call c this).
Proof.
  destruct c; simpl; try done.
  - apply set_coherent.
  - intros H. pose proof H as (Hl & Hp & Hn). unfold consume.
    destruct (lastSelection this); [|exact H].
    destruct (pendingAutoInclude this); [|exact H].
    by repeat split.
  - intros (Hl & Hp & Hn). repeat split; simpl; try done.
Qed.

Lemma run_coherent cs : forall this, coherent this -> coherent (run cs this).
Proof.
  induction cs as [|c cs IH]; intros this H; simpl; [done|].
  apply IH, call_coherent, H.
Qed.

(** X8. In every state that calls lead to from the initial one, [set] of a
    selection leaves an auto-include pending exactly when it asks for one,
    or one was pending and the stored selection had the signature of the new
    one; [set(null)] leaves none pending. *)
Theorem pending_kept_for_same_signature (cs : list Call)
    (selection : SelectionRange) (optAutoInclude : option bool) :
  let this := run cs initial in
  hasPendingAutoInclude (set (Some selection) optAutoInclude this) =
    default false optAutoInclude ||
    hasPendingAutoInclude this && sameSignature selection this /\
  hasPendingAutoInclude (set None optAutoInclude this) = false.
Proof.
  intros this. split; [|reflexivity].
  destruct (run_coherent cs initial initial_coherent) as (Hl & Hp & Hn).
  fold this in Hl, Hp, Hn.
  unfold hasPendingAutoInclude, set, sameSignature.
  cbn [negb orb andb lastSelection lastSignature pendingAutoInclude pendingSignature].
  destruct (default false optAutoInclude); [reflexivity|].
  cbn [orb]. destruct (pendingAutoInclude this) eqn:Ep.
  - destruct (Hp eq_refl) as (Hps & Hne). rewrite Hps, Hl.
    destruct (lastSelection this) as [stored|]; simpl.
    + by destruct (String.eqb (serialize stored) (serialize selection)).
    + reflexivity.
  - rewrite (Hn eq_refl). simpl. reflexivity.
Qed.

(** X9. The pending auto-include follows the signature, not the selection:
    when [b] has the signature of [a], [set(b)] after
    [set(a, {autoInclude: true})] leaves the auto-include pending, and
    [consume] returns [b] with the flag. *)
Theorem auto_include_passes_to_same_signature (a b : SelectionRange) (this : State) :
  serialize a = serialize b ->
  consume (set (Some b) None (set (Some a) (Some true) this)) =
    (Some (stamp b),
     {| lastSelection := Some b; lastSignature := Some (serialize b);
        pendingAutoInclude := false; pendingSignature := None |}).
Proof.
  intros E. unfold set. simpl. rewrite E, String.eqb_refl. reflexivity.
Qed.

(** With another signature, [set(b)] drops the pending auto-include. *)
Lemma auto_include_dropped_for_other_signature (a b : SelectionRange) (this : State) :
  serialize a <> serialize b ->
  consume (set (Some b) None (set (Some a) (Some true) this)) =
    (Some b,
     {| lastSelection := Some b; lastSignature := Some (serialize b);
        pendingAutoInclude := false; pendingSignature := None |}).
Proof.
  intros E. unfold set. simpl. apply String.eqb_neq in E. rewrite E. reflexivity.
Qed.

Lemma auto_include_passes_witness :
  colonInText <> colonInPath /\
  fst (consume (set (Some colonInPath) None (set (Some colonInText) (Some true) initial))) =
    Some (stamp colonInPath).
Proof.
  split; [discriminate|].
  rewrite (auto_include_passes_to_same_signature colonInText colonInPath initial);
    reflexivity.
Defined.

(** The number of flagged results is bounded by the requests, with one more
    for an auto-include that is already pending. *)
Lemma marked_bounded cs : forall this,
  marked (lastSelection this) = false ->
  forallb storesUnmarked cs = true ->
  length (List.filter marked (consumed cs this)) <=
    length (List.filter requestsAutoInclude cs) +
    (if pendingAutoInclude this then 1 else 0).
Proof.
  induction cs as [|c cs IH]; intros this Hm Hcs; [simpl; lia|].
  cbn [forallb] in Hcs. apply andb_true_iff in Hcs as [Hc Hcs].
  destruct c as [selection opt| | | |].
  - cbn [consumed call List.filter].
    assert (marked (lastSelection (set selection opt this)) = false) as Hm'.
    { simpl in Hc. apply negb_true_iff in Hc.
      unfold set. destruct selection; simpl; repeat case_match; simpl; done. }
    specialize (IH _ Hm' Hcs).
    assert ((if pendingAutoInclude (set selection opt this) then 1 else 0) <=
            (if requestsAutoInclude (CallSet selection opt) then 1 else 0) +
            (if pendingAutoInclude this then 1 else 0)) as Hle.
    { unfold set. destruct selection as [sel|]; simpl; [|lia].
      destruct opt as [[|]|]; simpl; try lia;
        destruct (signatureEq _ _); simpl; destruct (pendingAutoInclude this); lia. }
    destruct (requestsAutoInclude (CallSet selection opt)); simpl in *; lia.
  - cbn [consumed call List.filter requestsAutoInclude]. by apply IH.
  - cbn [consumed call List.filter requestsAutoInclude]. unfold consume.
    destruct (lastSelection this) as [snapshot|] eqn:El.
    + destruct (pendingAutoInclude this) eqn:Ep; cbn [fst snd].
      * cbn [marked stamp autoInclude length].
        specialize (IH {| lastSelection := lastSelection this;
                          lastSignature := lastSignature this;
                          pendingAutoInclude := false; pendingSignature := None |}).
        cbn [lastSelection pendingAutoInclude] in IH. rewrite El in IH.
        specialize (IH Hm Hcs). simpl. lia.
      * rewrite Hm. specialize (IH this). rewrite El, Ep in IH. by apply IH.
    + cbn [fst snd marked]. specialize (IH this). rewrite El in IH. by apply IH.
  - cbn [consumed call List.filter requestsAutoInclude]. by apply IH.
  - cbn [consumed call List.filter requestsAutoInclude].
    specialize (IH (clearAutoInclude this) Hm Hcs). simpl in IH.
    destruct (pendingAutoInclude this); lia.
Qed.

(** X10. Over any calls from the initial state that store no selection
    with a flag of its own, [consume] returns a flagged selection at most
    once for each [set] that asks for an auto-include. *)
Theorem one_flagged_consume_per_request (cs : list Call) :
  forallb storesUnmarked cs = true ->
  length (List.filter marked (consumed cs initial)) <=
    length (List.filter requestsAutoInclude cs).
Proof.
  intros H. pose proof (marked_bounded cs initial eq_refl H) as Hb.
  simpl in Hb. lia.
Qed.

Lemma one_flagged_consume_witness :
  forallb storesUnmarked
    [CallSet (Some colonInText) (Some true); CallConsume; CallConsume] = true /\
  length (List.filter marked
            (consumed [CallSet (Some colonInText) (Some true); CallConsume; CallConsume]
               initial)) <= 1.
Proof.
  split; [reflexivity|].
  apply (one_flagged_consume_per_request
           [CallSet (Some colonInText) (Some true); CallConsume; CallConsume]).
  reflexivity.
Defined.

End SelectionMore.

(** ** More on the webview service *)

Module ServiceMore.

Import Value WebViewService ServiceTrace Samples WebViewFacts.

Local Open Scope nat_scope.

Lemma In_removed x w s : In x (remove w s) <-> In x s /\ x <> w.
Proof.
  unfold remove. rewrite List.filter_In.
  destruct (Nat.eqb_spec x w) as [->|Hne]; simpl.
  - split; [by intros [_ ?]|by intros [_ ?]].
  - split; intros [H _]; by split.
Qed.

Lemma In_add x w s : In x (add w s) <-> x = w \/ In x s.
Proof.
  unfold add. destruct (has w s) eqn:Hh.
  - apply has_In in Hh. split; [by right|]. by intros [->|H].
  - rewrite in_app_iff. simpl. split.
    + intros [H|[H|[]]]; [by right|by left].
    + intros [->|H]; [right; by left|by left].
Qed.

Section WithHost.

Variable postMessageThrows : nat -> Webview -> Payload -> bool.

Local Abbreviation send := (send postMessageThrows).
Local Abbreviation broadcast := (broadcast postMessageThrows).
Local Abbreviation postMessage := (postMessage postMessageThrows).
Local Abbreviation replay := (replay postMessageThrows).
Local Abbreviation flushTo := (flushTo postMessageThrows).
Local Abbreviation flushPendingMessages := (flushPendingMessages postMessageThrows).
Local Abbreviation markWebviewReady := (markWebviewReady postMessageThrows).
Local Abbreviation step := (step postMessageThrows).
Local Abbreviation run := (run postMessageThrows).
Local Abbreviation attempts := (attempts postMessageThrows).
Local Abbreviation replayCalls := (replayCalls postMessageThrows).

(** *** Who is called *)

Lemma callsTo_attempts t ws : forall n p,
  ~ In t ws -> callsTo t (attempts n p ws) = [].
Proof.
  induction ws as [|w ws IH]; intros n p Hn; [done|].
  cbn [WebViewService.attempts callsTo List.filter target].
  destruct (Nat.eqb_spec w t) as [->|Hne].
  - exfalso. apply Hn. by left.
  - apply IH. intros H. apply Hn. by right.
Qed.

Lemma failed_called n p ws t :
  In t (map target (List.filter threw (attempts n p ws))) -> In t ws.
Proof.
  revert n. induction ws as [|w ws IH]; intros n; simpl; [done|].
  destruct (postMessageThrows n w p); simpl; [intros [<-|H]|intros H]; eauto.
Qed.

(** A webview outside the eligible ones is neither called nor dropped by a
    broadcast. *)
Lemma postMessage_quiet m this t :
  eligible this t = false ->
  callsTo t (posts (postMessage m this)) = callsTo t (posts this) /\
  (In t (readyWebviews (postMessage m this)) <-> In t (readyWebviews this)) /\
  webviewConfigs (postMessage m this) !! t = webviewConfigs this !! t.
Proof.
  intros He. destruct (postMessage_spec postMessageThrows m this) as (Hs & _ & Hk & _).
  assert (~ In t (List.filter (eligible this) (webviews this))) as Hn.
  { rewrite List.filter_In. intros [_ H]. congruence. }
  rewrite Hs, callsTo_app, callsTo_attempts, app_nil_r by exact Hn.
  split; [reflexivity|].
  apply Hk. intros Hf. apply failed_called in Hf. contradiction.
Qed.

Lemma flushTo_quiet ws t : forall this,
  ~ In t ws \/ addressed (webviewConfigs this !! t) = false ->
  callsTo t (posts (flushTo ws this)) = callsTo t (posts this) /\
  (In t (readyWebviews (flushTo ws this)) <-> In t (readyWebviews this)) /\
  webviewConfigs (flushTo ws this) !! t = webviewConfigs this !! t.
Proof.
  induction ws as [|w ws IH]; intros this Ht; simpl; [done|].
  destruct (addressed (webviewConfigs this !! w)) eqn:Ha; simpl.
  - assert (t <> w) as Hne.
    { intros ->. destruct Ht as [Ht|Ht]; [apply Ht; by left|congruence]. }
    destruct (replay_other postMessageThrows w (pendingMessages this) this t Hne)
      as (Hc & Hr & _).
    destruct (replay_spec postMessageThrows w (pendingMessages this) this) as (Hs & _).
    destruct (IH (replay w (pendingMessages this) this)) as (Is & Ir & Ic).
    { rewrite Hc. destruct Ht as [Ht|Ht]; [left|by right].
      intros H. apply Ht. by right. }
    rewrite Is, Ir, Ic, Hs, callsTo_app, Hr, Hc.
    rewrite (callsTo_none t w (replayCalls _ w _)), app_nil_r;
      [done|congruence|apply replayCalls_target].
  - apply IH. destruct Ht as [Ht|Ht]; [left|by right].
    intros H. apply Ht. by right.
Qed.

Lemma In_snoc (t w : Webview) (l : list Webview) :
  t <> w -> In t (l ++ [w]) <-> In t l.
Proof.
  intros Hne. rewrite in_app_iff. simpl. split; [|by left].
  intros [H|[H|[]]]; [done|congruence].
Qed.

Lemma markWebviewReady_quiet w this t :
  t <> w \/ addressed (webviewConfigs this !! t) = false ->
  ~ In t (readyWebviews this) \/ addressed (webviewConfigs this !! t) = false ->
  callsTo t (posts (markWebviewReady w this)) = callsTo t (posts this) /\
  (t <> w -> In t (readyWebviews (markWebviewReady w this)) <-> In t (readyWebviews this)) /\
  webviewConfigs (markWebviewReady w this) !! t = webviewConfigs this !! t.
Proof.
  intros Hw Ht. unfold WebViewService.markWebviewReady.
  destruct (has w (readyWebviews this)) eqn:Hh; [done|].
  unfold WebViewService.flushPendingMessages.
  cbn [readyWebviews pendingMessages].
  destruct (_ || _); cbn [posts readyWebviews webviewConfigs].
  - split; [done|]. split; [|done]. intros Hne. by apply In_snoc.
  - change (posts (flushTo (readyWebviews this ++ [w]) ?s)) with
      (posts (flushTo (readyWebviews this ++ [w]) (nowReady w this))).
    change (readyWebviews (flushTo (readyWebviews this ++ [w]) ?s)) with
      (readyWebviews (flushTo (readyWebviews this ++ [w]) (nowReady w this))).
    change (webviewConfigs (flushTo (readyWebviews this ++ [w]) ?s)) with
      (webviewConfigs (flushTo (readyWebviews this ++ [w]) (nowReady w this))).
    set (st := nowReady w this).
    destruct (flushTo_quiet (readyWebviews this ++ [w]) t st) as (Hs & Hr & Hc).
    { cbn [webviewConfigs st]. destruct Hw as [Hw|Hw]; [|by right].
      destruct Ht as [Ht|Ht]; [left|by right].
      by rewrite In_snoc. }
    rewrite Hs, Hr, Hc. split; [done|]. split; [|done].
    intros Hne. cbn [readyWebviews st]. by apply In_snoc.
Qed.

Lemma lookup_forget w this t :
  webviewConfigs (forget w this) !! t = webviewConfigs this !! t \/
  webviewConfigs (forget w this) !! t = None.
Proof.
  simpl. destruct (decide (w = t)) as [->|Hne].
  - right. apply lookup_delete_eq.
  - left. by apply lookup_delete_ne.
Qed.

Lemma lookup_register w bootstrap this t :
  webviewConfigs (registerWebview w bootstrap this) !! t =
    if decide (w = t) then Some bootstrap else webviewConfigs this !! t.
Proof.
  simpl. destruct (decide (w = t)) as [->|Hne].
  - apply lookup_insert_eq.
  - by apply lookup_insert_ne.
Qed.

Lemma run_cons e es this : run (e :: es) this = run es (step e this).
Proof. reflexivity. Qed.

(** A webview that is not ready is not called before its next message. *)
Lemma step_until_ready e this t :
  ~ In t (readyWebviews this) ->
  e <> DidReceiveMessage t ->
  callsTo t (posts (step e this)) = callsTo t (posts this) /\
  ~ In t (readyWebviews (step e this)).
Proof.
  intros Hr He. destruct e as [w|w|pageName instanceId revealThrows w|key w|w|m];
    cbn [WebViewService.step].
  - done.
  - split; [done|]. simpl. rewrite In_removed. tauto.
  - unfold openEditorPage. repeat case_match; done.
  - split; [done|]. simpl. rewrite In_removed. tauto.
  - assert (t <> w) as Hne by congruence.
    destruct (markWebviewReady_quiet w this t) as (Hs & Hrd & _); [by left|by left|].
    split; [done|]. by rewrite Hrd.
  - destruct (postMessage_quiet m this t) as (Hs & Hrd & _).
    { unfold eligible. destruct (has t (readyWebviews this)) eqn:Hh; [|done].
      apply has_In in Hh. contradiction. }
    split; [done|]. by rewrite Hrd.
Qed.

Lemma run_until_ready es t : forall this,
  ~ In t (readyWebviews this) ->
  ~ In (DidReceiveMessage t) es ->
  callsTo t (posts (run es this)) = callsTo t (posts this) /\
  ~ In t (readyWebviews (run es this)).
Proof.
  induction es as [|e es IH]; intros this Hr Hes; [done|].
  rewrite run_cons.
  destruct (step_until_ready e this t Hr) as (Hs & Hr').
  { intros ->. apply Hes. by left. }
  destruct (IH (step e this) Hr') as (Is & Ir).
  { intros H. apply Hes. by right. }
  split; [|exact Ir]. by rewrite Is, Hs.
Qed.

(** A webview that is not the chat view of the sidebar is not called before
    it is resolved as that view. *)
Lemma step_until_addressed e this t :
  addressed (webviewConfigs this !! t) = false ->
  e <> ResolveWebviewView t ->
  callsTo t (posts (step e this)) = callsTo t (posts this) /\
  addressed (webviewConfigs (step e this) !! t) = false.
Proof.
  intros Ha He. destruct e as [w|w|pageName instanceId revealThrows w|key w|w|m];
    cbn [WebViewService.step].
  - split; [done|]. unfold resolveWebviewView. rewrite lookup_register.
    destruct (decide (w = t)) as [->|]; [congruence|done].
  - split; [done|]. by destruct (lookup_forget w this t) as [-> | ->].
  - unfold openEditorPage.
    repeat case_match; (split; [done|]); try done;
      cbn [webviewConfigs registerWebview];
      (destruct (decide (w = t)) as [->|Hne];
       [by rewrite lookup_insert_eq | by rewrite lookup_insert_ne]).
  - split; [done|]. unfold panelDisposed. cbn [webviewConfigs].
    by destruct (lookup_forget w this t) as [-> | ->].
  - destruct (markWebviewReady_quiet w this t) as (Hs & _ & Hc); [by right|by right|].
    by rewrite Hs, Hc.
  - destruct (postMessage_quiet m this t) as (Hs & _ & Hc).
    { unfold eligible. rewrite Ha. apply andb_false_r. }
    by rewrite Hs, Hc.
Qed.

Lemma run_until_addressed es t : forall this,
  addressed (webviewConfigs this !! t) = false ->
  ~ In (ResolveWebviewView t) es ->
  callsTo t (posts (run es this)) = callsTo t (posts this) /\
  addressed (webviewConfigs (run es this) !! t) = false.
Proof.
  induction es as [|e es IH]; intros this Hr Hes; [done|].
  rewrite run_cons.
  destruct (step_until_addressed e this t Hr) as (Hs & Hr').
  { intros ->. apply Hes. by left. }
  destruct (IH (step e this) Hr') as (Is & Ir).
  { intros H. apply Hes. by right. }
  split; [|exact Ir]. by rewrite Is, Hs.
Qed.

(** X11. From the start of the service, no webview is called before it has
    been resolved as the sidebar view and has sent a message: the webview of
    an editor page, or one that has not spoken yet, is left alone whatever
    is posted. *)
Theorem called_only_after_resolve_and_message (es : list Event) (w : Webview) :
  ~ In (ResolveWebviewView w) es \/ ~ In (DidReceiveMessage w) es ->
  callsTo w (posts (run es initial)) = [].
Proof.
  intros [H|H].
  - by destruct (run_until_addressed es w initial eq_refl H) as [-> _].
  - assert (~ In w (readyWebviews initial)) as Hr by (simpl; tauto).
    by destruct (run_until_ready es w initial Hr H) as [-> _].
Qed.

(** X12. A webview that the service has dropped is not called again before
    its next message: after the view or the panel is disposed, and after a
    call of [postMessage] on it threw in a broadcast. *)
Theorem dropped_webview_left_alone (this : State) (w : Webview) (key : string)
    (m : json) (es : list Event) :
  ~ In (DidReceiveMessage w) es ->
  callsTo w (posts (run (ViewDisposed w :: es) this)) = callsTo w (posts this) /\
  callsTo w (posts (run (PanelDisposed key w :: es) this)) = callsTo w (posts this) /\
  (In w (map target (List.filter threw
           (attempts (length (posts this)) (wrap m)
              (List.filter (eligible this) (webviews this))))) ->
   callsTo w (posts (run (PostMessage m :: es) this)) =
     callsTo w (posts (postMessage m this))).
Proof.
  intros Hes. rewrite !run_cons. cbn [WebViewService.step].
  split; [|split].
  - destruct (run_until_ready es w (forget w this)) as [-> _]; try done.
    simpl. rewrite In_removed. tauto.
  - destruct (run_until_ready es w (panelDisposed key w this)) as [-> _]; try done.
    simpl. rewrite In_removed. tauto.
  - intros Hf.
    destruct (postMessage_spec postMessageThrows m this) as (_ & Hgone & _).
    destruct (Hgone w Hf) as (_ & Hr & _).
    by destruct (run_until_ready es w (postMessage m this) Hr Hes) as [-> _].
Qed.

(** *** Delivery and the pending auto-include *)

Lemma clear_twice s :
  SelectionState.clearAutoInclude (SelectionState.clearAutoInclude s) =
  SelectionState.clearAutoInclude s.
Proof. reflexivity. Qed.

Lemma forget_selection gone : forall this,
  selectionState (fold_left (fun st w => forget w st) gone this) = selectionState this.
Proof. induction gone as [|w gone IH]; intros this; simpl; [done|by rewrite IH]. Qed.

Lemma broadcast_selection p ws : forall delivered toRemove this,
  (announcesAutoInclude p = true -> delivered = true ->
   SelectionState.clearAutoInclude (selectionState this) = selectionState this) ->
  let result := broadcast p ws delivered toRemove this in
  (delivered = true -> result.1.1 = true) /\
  selectionState result.2 =
    if announcesAutoInclude p && result.1.1
    then SelectionState.clearAutoInclude (selectionState this)
    else selectionState this.
Proof.
  induction ws as [|w ws IH]; intros delivered toRemove this Hd;
    cbn [WebViewService.broadcast].
  - cbn [fst snd]. split; [done|].
    destruct (announcesAutoInclude p) eqn:Ea, delivered eqn:Ed; simpl; try done.
    symmetry. by apply Hd.
  - destruct (negb (has w (readyWebviews this))); [by apply IH|].
    destruct (negb (addressed (webviewConfigs this !! w))); [by apply IH|].
    unfold WebViewService.send. destruct (postMessageThrows _ w p); cbn [negb].
    + apply (IH delivered (toRemove ++ [w])
               (record {| target := w; payload := p; threw := true |} this)), Hd.
    + set (this0 := handleAutoIncludeDelivered p
                      (record {| target := w; payload := p; threw := false |} this)).
      assert (selectionState this0 =
              if announcesAutoInclude p
              then SelectionState.clearAutoInclude (selectionState this)
              else selectionState this) as E0.
      { unfold this0, handleAutoIncludeDelivered. by destruct (announcesAutoInclude p). }
      destruct (IH true toRemove this0) as (Ht & Hs).
      { intros Ha _. by rewrite E0, Ha. }
      split; [intros _; by apply Ht|].
      rewrite Hs, (Ht eq_refl), andb_true_r, E0.
      by destruct (announcesAutoInclude p).
Qed.

Lemma postMessage_selection (m : json) (this : State) :
  let calls :=
    attempts (length (posts this)) (wrap m) (List.filter (eligible this) (webviews this)) in
  selectionState (postMessage m this) =
    if announcesAutoInclude (wrap m) && existsb succeeded calls
    then SelectionState.clearAutoInclude (selectionState this)
    else selectionState this.
Proof.
  intros calls. unfold WebViewService.postMessage.
  destruct (Nat.eqb (length (webviews this)) 0) eqn:Hz.
  - apply Nat.eqb_eq, nil_length_inv in Hz. subst calls. rewrite Hz. simpl.
    by rewrite andb_false_r.
  - destruct (broadcast_spec postMessageThrows (wrap m) (webviews this) false [] this)
      as (this1 & Hb & _).
    destruct (broadcast_selection (wrap m) (webviews this) false [] this) as (_ & Hs);
      [done|].
    fold calls in Hb. unfold wrap in Hb, Hs |- *. rewrite Hb in Hs |- *.
    cbn [fst snd orb] in Hs. rewrite forget_selection.
    destruct (negb (false || existsb succeeded calls)); exact Hs.
Qed.

Lemma replay_selection w ps : forall this,
  selectionState (replay w ps this) =
    if existsb (fun c => succeeded c && announcesAutoInclude (payload c))
         (replayCalls (length (posts this)) w ps)
    then SelectionState.clearAutoInclude (selectionState this)
    else selectionState this.
Proof.
  induction ps as [|p ps IH]; intros this; cbn [WebViewService.replay]; [done|].
  unfold WebViewService.send. cbn [WebViewService.replayCalls].
  destruct (postMessageThrows (length (posts this)) w p) eqn:Ht; cbn [negb].
  - reflexivity.
  - rewrite IH. unfold handleAutoIncludeDelivered.
    cbn [existsb succeeded threw payload negb andb].
    replace (length (posts (if announcesAutoInclude p then _ else _)))
      with (S (length (posts this)))
      by (destruct (announcesAutoInclude p); simpl; rewrite length_app; simpl; lia).
    destruct (announcesAutoInclude p); cbn [orb selectionState record];
      by destruct (existsb _ _).
Qed.

Lemma flush_single_selection w this :
  readyWebviews this = [w] ->
  pendingMessages this <> [] ->
  addressed (webviewConfigs this !! w) = true ->
  selectionState (flushPendingMessages this) =
    selectionState (replay w (pendingMessages this) this).
Proof.
  intros Hr Hq Ha. unfold WebViewService.flushPendingMessages.
  rewrite Hr. destruct (pendingMessages this) as [|p ps] eqn:Hp; [done|].
  cbn [length Nat.eqb orb WebViewService.flushTo]. rewrite Ha. cbn [negb].
  simpl. by rewrite Hp.
Qed.

Lemma enqueue_holds m this : In (wrap m) (pendingMessages (enqueuePendingMessage m this)).
Proof.
  unfold enqueuePendingMessage, MAX_PENDING_MESSAGES, wrap. cbn [pendingMessages].
  destruct (Nat.ltb_spec 50 (length (pendingMessages this ++
              [{| type := "from-extension"; message := m |}]))) as [Hlt|Hge].
  - destruct (pendingMessages this) as [|a q]; simpl in *; [lia|].
    apply in_app_iff. right. by left.
  - apply in_app_iff. right. by left.
Qed.

(** X13. A posted message that announces an auto-included selection clears
    the pending auto-include of the selection state exactly when a webview
    took it; when every call threw or nobody was called, and the message was
    queued, and for every other message, the selection state is as before. *)
Theorem delivery_clears_pending_auto_include (m : json) (this : State) :
  let calls :=
    attempts (length (posts this)) (wrap m) (List.filter (eligible this) (webviews this)) in
  selectionState (postMessage m this) =
    (if announcesAutoInclude (wrap m) && existsb succeeded calls
     then SelectionState.clearAutoInclude (selectionState this)
     else selectionState this) /\
  (existsb succeeded calls = false ->
   pendingMessages (postMessage m this) =
     pendingMessages (enqueuePendingMessage m this)).
Proof.
  intros calls. split; [apply postMessage_selection|].
  intros Hn. destruct (postMessage_spec postMessageThrows m this) as (_ & _ & _ & Hp).
  fold calls in Hp. by rewrite Hn in Hp.
Qed.

(** *** The registry *)

Lemma register_tracked w bootstrap this :
  tracked this -> tracked (registerWebview w bootstrap this).
Proof.
  intros H x. cbn [webviews registerWebview]. rewrite In_add, lookup_register, (H x).
  destruct (decide (w = x)) as [->|Hne].
  - split; [by eexists|by left].
  - split; [intros [->|Hx]; done|by right].
Qed.

Lemma forget_tracked w this : tracked this -> tracked (forget w this).
Proof.
  intros H x. cbn [webviews webviewConfigs forget].
  rewrite In_removed, (H x).
  destruct (decide (w = x)) as [->|Hne].
  - rewrite lookup_delete_eq. split; [by intros [_ []]|by intros [? [=]]].
  - rewrite lookup_delete_ne by done. split; [by intros [? _]|]. intros ?. split; congruence.
Qed.

Lemma replay_tracked w ps this : tracked this -> tracked (replay w ps this).
Proof.
  intros H. destruct (replay_spec postMessageThrows w ps this) as (_ & _ & Hreg).
  destruct (existsb threw _); destruct Hreg as (Hw & _ & Hc); intros x;
    rewrite Hw, Hc; [apply (forget_tracked w this H)|apply H].
Qed.

Lemma flushTo_tracked ws : forall this, tracked this -> tracked (flushTo ws this).
Proof.
  induction ws as [|w ws IH]; intros this H; simpl; [done|].
  destruct (negb _); apply IH; [done|by apply replay_tracked].
Qed.

Lemma step_tracked e this : tracked this -> tracked (step e this).
Proof.
  intros H. destruct e as [w|w|pageName instanceId revealThrows w|key w|w|m];
    cbn [WebViewService.step].
  - by apply register_tracked.
  - by apply forget_tracked.
  - unfold openEditorPage.
    repeat case_match; try done; intros x; cbn [webviews webviewConfigs];
      apply (register_tracked w _ this H x).
  - intros x. apply (forget_tracked w this H x).
  - unfold WebViewService.markWebviewReady. destruct (has w _); [done|].
    unfold WebViewService.flushPendingMessages. destruct (_ || _); [exact H|].
    intros x. cbn [webviews webviewConfigs].
    by apply (flushTo_tracked (readyWebviews this ++ [w]) (nowReady w this)).
  - intros x. destruct (postMessage_spec postMessageThrows m this) as (_ & Hgone & Hkept & _).
    set (failed := map target (List.filter threw
           (attempts (length (posts this)) (wrap m)
              (List.filter (eligible this) (webviews this))))) in *.
    destruct (in_dec Nat.eq_dec x failed) as [Hin|Hn].
    + destruct (Hgone x Hin) as (Hw & _ & Hc). rewrite Hc.
      split; [done|by intros [? [=]]].
    + destruct (Hkept x Hn) as (Hw & _ & Hc). rewrite Hw, Hc. apply H.
Qed.

Lemma add_NoDup w s : List.NoDup s -> List.NoDup (add w s).
Proof.
  intros H. unfold add. destruct (has w s) eqn:Hh; [done|].
  apply List.NoDup_app; repeat split; [done|repeat constructor; by intros []|].
  intros x Hx [<-|[]]. apply has_In in Hx. congruence.
Qed.

Lemma flushTo_webviews_NoDup ws : forall this,
  List.NoDup (webviews this) -> List.NoDup (webviews (flushTo ws this)).
Proof.
  induction ws as [|x ws IH]; intros st Hst; simpl; [done|].
  destruct (negb _); apply IH; [done|].
  destruct (replay_spec postMessageThrows x (pendingMessages st) st) as (_ & _ & Hreg).
  destruct (existsb threw _); destruct Hreg as (-> & _); [by apply remove_NoDup|done].
Qed.

Lemma forget_webviews_NoDup gone : forall this,
  List.NoDup (webviews this) ->
  List.NoDup (webviews (fold_left (fun st w => forget w st) gone this)).
Proof.
  induction gone as [|x gone IH]; intros st Hst; simpl; [done|].
  apply IH. by apply remove_NoDup.
Qed.

Lemma step_webviews_NoDup e this :
  List.NoDup (webviews this) -> List.NoDup (webviews (step e this)).
Proof.
  intros H. destruct e as [w|w|pageName instanceId revealThrows w|key w|w|m];
    cbn [WebViewService.step].
  - by apply add_NoDup.
  - by apply remove_NoDup.
  - unfold openEditorPage. repeat case_match; try done; by apply add_NoDup.
  - by apply remove_NoDup.
  - unfold WebViewService.markWebviewReady. destruct (has w _); [done|].
    unfold WebViewService.flushPendingMessages. destruct (_ || _); [exact H|].
    cbn [webviews].
    by apply (flushTo_webviews_NoDup (readyWebviews this ++ [w]) (nowReady w this)).
  - unfold WebViewService.postMessage.
    destruct (Nat.eqb _ 0); [done|].
    destruct (broadcast_spec postMessageThrows (wrap m) (webviews this) false [] this)
      as (this1 & Hb & Hw & _).
    unfold wrap in Hb. rewrite Hb.
    apply forget_webviews_NoDup.
    destruct (negb _); simpl; by rewrite Hw.
Qed.

(** X14. In every state that events lead to from the start of the service,
    the set of webviews and the map of configurations hold the same
    webviews, each of them once. *)
Theorem registry_tracks_configurations (es : list Event) (w : Webview) :
  (In w (webviews (run es initial)) <-> is_Some (webviewConfigs (run es initial) !! w)) /\
  List.NoDup (webviews (run es initial)).
Proof.
  assert (tracked initial /\ List.NoDup (webviews initial)) as H0.
  { split; [|constructor]. intros x. simpl. rewrite lookup_empty.
    split; [done|by intros [? [=]]]. }
  revert H0. generalize initial. induction es as [|e es IH]; intros this [Ht Hn].
  - split; [apply Ht|exact Hn].
  - rewrite run_cons. apply IH. split; [by apply step_tracked|by apply step_webviews_NoDup].
Qed.

End WithHost.

(** *** Editor pages *)

Lemma openEditorPage_key pageName instanceId revealThrows w this :
  exists panel,
    editorPanels (openEditorPage pageName instanceId revealThrows w this)
      !! panelKey pageName instanceId = Some panel.
Proof.
  unfold openEditorPage. fold (panelKey pageName instanceId).
  destruct (editorPanels this !! panelKey pageName instanceId) as [existing|] eqn:E.
  - destruct revealThrows.
    + exists w. cbn [editorPanels]. apply lookup_insert_eq.
    + by exists existing.
  - exists w. cbn [editorPanels]. apply lookup_insert_eq.
Qed.

(** X15. Opening a page that is open reveals its panel and changes nothing
    in the service: after any [openEditorPage], a second one with the same
    key whose [reveal] returns leaves the state as it is, whatever panel the
    host would have made. *)
Theorem open_page_reopened (pageName pageName' : string) (instanceId instanceId' : option string)
    (revealThrows : bool) (w w' : Webview) (this : State) :
  panelKey pageName' instanceId' = panelKey pageName instanceId ->
  openEditorPage pageName' instanceId' false w'
    (openEditorPage pageName instanceId revealThrows w this) =
  openEditorPage pageName instanceId revealThrows w this.
Proof.
  intros Hk.
  destruct (openEditorPage_key pageName instanceId revealThrows w this) as [panel Hp].
  unfold openEditorPage at 1. fold (panelKey pageName' instanceId').
  by rewrite Hk, Hp.
Qed.

(** X16. The listener of a panel that was replaced removes the entry of its
    replacement: when [reveal] throws, the page is opened in a new panel
    under the same key, and the dispose event of the old panel then deletes
    that key, while the new webview stays registered; the next
    [openEditorPage] makes one more panel. *)
Theorem stale_dispose_forgets_new_panel (pageName : string) (instanceId : option string)
    (old new : Webview) (this : State) :
  editorPanels this !! panelKey pageName instanceId = Some old ->
  old <> new ->
  let key := panelKey pageName instanceId in
  let reopened := openEditorPage pageName instanceId true new this in
  let this' := panelDisposed key old reopened in
  editorPanels reopened !! key = Some new /\
  editorPanels this' !! key = None /\
  In new (webviews this') /\
  webviewConfigs this' !! new =
    Some {| host := editor; page := Some pageName; id := Some key |} /\
  forall revealThrows another,
    editorPanels (openEditorPage pageName instanceId revealThrows another this') !! key =
      Some another.
Proof.
  intros Hold Hne key reopened this'.
  assert (reopened =
    let st := registerWebview new {| host := editor; page := Some pageName; id := Some key |}
                this in
    {| webviews := webviews st; readyWebviews := readyWebviews st;
       webviewConfigs := webviewConfigs st; pendingMessages := pendingMessages st;
       editorPanels := <[key := new]> (delete key (editorPanels this));
       selectionState := selectionState st; posts := posts st |}) as E.
  { subst reopened. unfold openEditorPage. fold (panelKey pageName instanceId).
    fold key. unfold key at 1. by rewrite Hold. }
  split; [rewrite E; apply lookup_insert_eq|].
  assert (editorPanels this' !! key = None) as Hnone.
  { subst this'. cbn [panelDisposed editorPanels]. apply lookup_delete_eq. }
  split; [exact Hnone|].
  split.
  { subst this'. rewrite E. cbn [panelDisposed forget webviews registerWebview].
    rewrite In_removed, In_add. split; [by left|congruence]. }
  split.
  { subst this'. rewrite E. cbn [panelDisposed forget webviewConfigs registerWebview].
    rewrite lookup_delete_ne by done. apply lookup_insert_eq. }
  intros revealThrows another. unfold openEditorPage. fold (panelKey pageName instanceId).
  fold key. rewrite Hnone. cbn [editorPanels]. apply lookup_insert_eq.
Qed.

Lemma called_only_after_witness :
  (~ In (ResolveWebviewView 7) twoQueued \/ ~ In (DidReceiveMessage 7) twoQueued) /\
  callsTo 7 (posts (run accepting twoQueued initial)) = [].
Proof.
  assert (~ In (DidReceiveMessage 7) twoQueued) as H
    by (simpl; intros [H|[H|[H|[]]]]; discriminate).
  split; [by right|].
  apply (called_only_after_resolve_and_message accepting twoQueued 7). by right.
Defined.

Lemma dropped_webview_witness :
  ~ In (DidReceiveMessage 7) [PostMessage (JNum 9)] /\
  callsTo 7 (posts (run accepting (ViewDisposed 7 :: [PostMessage (JNum 9)])
                      (run accepting Cases.chatReady initial))) =
    callsTo 7 (posts (run accepting Cases.chatReady initial)).
Proof.
  assert (~ In (DidReceiveMessage 7) [PostMessage (JNum 9)]) as H
    by (simpl; intros [H|[]]; discriminate).
  split; [exact H|].
  apply (dropped_webview_left_alone accepting (run accepting Cases.chatReady initial) 7
           "settings" JNull [PostMessage (JNum 9)] H).
Defined.

Lemma open_page_reopened_witness :
  panelKey "other" (Some "settings") = panelKey "settings" None /\
  openEditorPage "other" (Some "settings") false 2 (openEditorPage "settings" None false 1 initial) =
  openEditorPage "settings" None false 1 initial.
Proof.
  split; [reflexivity|].
  apply (open_page_reopened "settings" "other" None (Some "settings") false 1 2 initial).
  reflexivity.
Defined.

Lemma stale_dispose_witness :
  editorPanels (openEditorPage "settings" None false 1 initial) !! panelKey "settings" None =
    Some 1 /\
  1 <> 2 /\
  editorPanels
    (panelDisposed "settings" 1
       (openEditorPage "settings" None true 2 (openEditorPage "settings" None false 1 initial)))
    !! "settings" = None.
Proof.
  assert (editorPanels (openEditorPage "settings" None false 1 initial)
            !! panelKey "settings" None = Some 1) as H by (vm_compute; reflexivity).
  split; [exact H|]. split; [lia|].
  apply (stale_dispose_forgets_new_panel "settings" None 1 2
           (openEditorPage "settings" None false 1 initial) H).
  lia.
Defined.

End ServiceMore.

(** ** The selection sync and the service together *)

Module ExtensionFacts.

Import Value SelectionTrace Extension.

Local Open Scope nat_scope.

(** The service tells an auto-included selection by the flag of the posted
    selection. *)
Lemma announces_marked requestId selection :
  WebViewService.announcesAutoInclude
    (WebViewService.wrap (selectionMessage requestId selection)) = marked selection.
Proof.
  destruct selection as [[path sl el [sc|] [ec|] text [[|]|]]|]; reflexivity.
Qed.

Lemma built_unmarked editor selection :
  buildSelectionRange editor = Some selection ->
  marked (Some selection) = false /\
  exists ed, editor = Some ed /\ isFile ed = true /\ isEmpty ed = false.
Proof.
  destruct editor as [ed|]; [|discriminate]. unfold buildSelectionRange.
  destruct (isFile ed) eqn:Ef, (isEmpty ed) eqn:Ee; try discriminate.
  intros [= <-]. split; [reflexivity|]. by exists ed.
Qed.

Lemma onSelectionState_same f this :
  f (WebViewService.selectionState (service this)) =
    WebViewService.selectionState (service this) ->
  onSelectionState f this = this.
Proof. destruct this as [sig []]. unfold onSelectionState. simpl. by intros ->. Qed.

Lemma set_again selection optAutoInclude this :
  default false optAutoInclude = false ->
  SelectionState.set selection optAutoInclude
    (SelectionState.set selection optAutoInclude this) =
  SelectionState.set selection optAutoInclude this.
Proof.
  intros Hd. unfold SelectionState.set. rewrite Hd.
  destruct selection as [sel|]; cbn [andb negb orb]; [|reflexivity].
  cbn [SelectionState.lastSignature SelectionState.pendingSignature
       SelectionState.lastSelection SelectionState.pendingAutoInclude].
  destruct (SelectionState.signatureEq (SelectionState.pendingSignature this)
              (Some (SelectionState.serialize sel))) eqn:E; cbn [negb].
  - cbn [SelectionState.lastSignature SelectionState.pendingSignature
         SelectionState.lastSelection SelectionState.pendingAutoInclude].
    by rewrite E.
  - reflexivity.
Qed.

Section WithHost.

Variable postMessageThrows :
  nat -> WebViewService.Webview -> WebViewService.Payload -> bool.

Local Abbreviation postMessage := (WebViewService.postMessage postMessageThrows).
Local Abbreviation attempts := (WebViewService.attempts postMessageThrows).
Local Abbreviation sendSelectionUpdate := (sendSelectionUpdate postMessageThrows).
Local Abbreviation syncSelection := (syncSelection postMessageThrows).
Local Abbreviation addSelectionToChat := (addSelectionToChat postMessageThrows).

Lemma send_unmarked requestId selection force this :
  marked selection = false ->
  WebViewService.selectionState (service (sendSelectionUpdate requestId selection force this)) =
    WebViewService.selectionState (service this).
Proof.
  intros Hm. unfold Extension.sendSelectionUpdate. destruct (_ && _); [done|].
  cbn [service].
  rewrite (ServiceMore.postMessage_selection postMessageThrows), announces_marked, Hm.
  reflexivity.
Qed.

Lemma send_signature requestId selection force this :
  lastSelectionSignature (sendSelectionUpdate requestId selection force this) =
    Some (serializeSelection selection).
Proof.
  unfold Extension.sendSelectionUpdate.
  destruct (negb _) eqn:En; cbn [andb]; [|done].
  destruct (lastSelectionSignature this) as [last|] eqn:El; cbn [SelectionState.signatureEq];
    [|done].
  destruct (String.eqb_spec (serializeSelection selection) last) as [->|]; [|done].
  exact El.
Qed.

Lemma send_again requestId selection force this :
  default false force = false ->
  lastSelectionSignature this = Some (serializeSelection selection) ->
  sendSelectionUpdate requestId selection force this = this.
Proof.
  intros Hf Hl. unfold Extension.sendSelectionUpdate. rewrite Hf, Hl. simpl.
  by rewrite String.eqb_refl.
Qed.

(** X17. The command that adds the selection to the chat, on a file with a
    selection, stores the selection, always posts one message, which the
    service tells as announcing an auto-included selection, and leaves the
    auto-include pending exactly when no webview took the message. *)
Theorem add_selection_announced (requestId : string) (ed : TextEditor) (this : State) :
  isFile ed = true -> isEmpty ed = false ->
  exists selection,
    buildSelectionRange (Some ed) = Some selection /\
    let m := selectionMessage requestId (Some (SelectionState.stamp selection)) in
    let calls :=
      attempts (length (WebViewService.posts (service this))) (WebViewService.wrap m)
        (List.filter (WebViewService.eligible (service this))
           (WebViewService.webviews (service this))) in
    let this' := addSelectionToChat requestId (Some ed) this in
    WebViewService.announcesAutoInclude (WebViewService.wrap m) = true /\
    WebViewService.posts (service this') = WebViewService.posts (service this) ++ calls /\
    pending this' = negb (existsb WebViewService.succeeded calls) /\
    SelectionState.getSnapshot (WebViewService.selectionState (service this')) =
      Some selection.
Proof.
  intros Hf He. eexists. split.
  { unfold buildSelectionRange. rewrite Hf, He. reflexivity. }
  set (selection := {| SelectionState.filePath := fsPath ed |}).
  intros m calls this'.
  pose proof (announces_marked requestId (Some (SelectionState.stamp selection))) as Ha.
  fold m in Ha. split; [exact Ha|].
  assert (this' =
    {| lastSelectionSignature := Some (serializeSelection (Some (SelectionState.stamp selection)));
       service :=
         postMessage m
           (service (onSelectionState
                       (SelectionState.set (Some selection) (Some true)) this)) |}) as E.
  { subst this'. unfold Extension.addSelectionToChat, Extension.syncSelection.
    rewrite He, Hf. cbn [orb negb]. unfold buildSelectionRange. rewrite Hf, He.
    cbn [orb negb default]. reflexivity. }
  rewrite E. cbn [service]. unfold pending. cbn [service].
  set (svc := service (onSelectionState _ this)).
  destruct (WebViewFacts.postMessage_spec postMessageThrows m svc) as (Hp & _).
  rewrite (ServiceMore.postMessage_selection postMessageThrows), Ha.
  change (WebViewService.posts svc) with (WebViewService.posts (service this)) in *.
  change (WebViewService.webviews svc) with (WebViewService.webviews (service this)) in *.
  change (WebViewService.eligible svc) with (WebViewService.eligible (service this)) in *.
  fold calls in Hp |- *. split; [exact Hp|].
  change (marked (Some (SelectionState.stamp selection))) with true. cbn [andb].
  destruct (existsb WebViewService.succeeded calls); split; reflexivity.
Qed.

(** X18. Without a selection to send: when the editor is not a file (or
    there is none) and an auto-include is pending, [syncSelection] changes
    nothing and posts nothing; otherwise it drops the stored selection and
    the pending auto-include, and the last signature is the one of no
    selection. *)
Theorem pending_kept_when_focus_leaves (requestId : string) (editor : option TextEditor)
    (optAutoInclude : option bool) (this : State) :
  buildSelectionRange editor = None ->
  let selectable := match editor with Some ed => isFile ed | None => false end in
  let this' := syncSelection requestId editor optAutoInclude this in
  (selectable = false -> pending this = true -> this' = this) /\
  (selectable = true \/ pending this = false ->
   SelectionState.getSnapshot (WebViewService.selectionState (service this')) = None /\
   pending this' = false /\
   lastSelectionSignature this' = Some "::no_selection::"%string).
Proof.
  intros Hb selectable this'. subst this'. unfold Extension.syncSelection.
  rewrite Hb. fold selectable. split.
  - intros -> ->. reflexivity.
  - intros H.
    assert (negb selectable && pending this = false) as ->
      by (destruct H as [-> | ->]; [done|apply andb_false_r]).
    unfold pending. rewrite send_signature. rewrite send_unmarked by reflexivity.
    by destruct this as [sig []].
Qed.

(** X19. A selection that did not change is sent once: a second
    [syncSelection] of the same editor without auto-include changes nothing
    and posts nothing. *)
Theorem unchanged_selection_sent_once (requestId requestId' : string)
    (editor : option TextEditor) (optAutoInclude : option bool) (this : State) :
  default false optAutoInclude = false ->
  syncSelection requestId' editor optAutoInclude
    (syncSelection requestId editor optAutoInclude this) =
  syncSelection requestId editor optAutoInclude this.
Proof.
  intros Hd. unfold Extension.syncSelection at 2.
  destruct (buildSelectionRange editor) as [selection|] eqn:Hb.
  - destruct (built_unmarked editor selection Hb) as (Hm & _).
    rewrite Hd. set (this1 := sendSelectionUpdate _ _ _ _).
    unfold Extension.syncSelection. rewrite Hb, Hd.
    assert (WebViewService.selectionState (service this1) =
            SelectionState.set (Some selection) optAutoInclude
              (WebViewService.selectionState (service this))) as Es.
    { subst this1. rewrite send_unmarked by exact Hm. by destruct this as [sig []]. }
    rewrite onSelectionState_same by (rewrite Es; by apply set_again).
    apply send_again; [exact Hd|]. apply send_signature.
  - set (selectable := match editor with Some ed => isFile ed | None => false end).
    destruct (negb selectable && pending this) eqn:Hskip.
    + unfold Extension.syncSelection. rewrite Hb. fold selectable. by rewrite Hskip.
    + set (this1 := sendSelectionUpdate _ _ _ _).
      assert (WebViewService.selectionState (service this1) =
              SelectionState.set None None
                (WebViewService.selectionState (service this))) as Es.
      { subst this1. rewrite send_unmarked by reflexivity. by destruct this as [sig []]. }
      unfold Extension.syncSelection. rewrite Hb. fold selectable. rewrite Hskip.
      fold this1.
      assert (pending this1 = false) as -> by (unfold pending; by rewrite Es).
      rewrite andb_false_r.
      rewrite onSelectionState_same by (by rewrite Es).
      apply send_again; [done|]. apply send_signature.
Qed.

(** X20. A selection added to the chat before the view is open is not
    lost: with no webview registered, the message is queued and the
    auto-include stays pending; when the sidebar view is resolved and its
    webview sends its first message, the queue is sent to that webview, which
    takes it, and the pending auto-include is cleared while the selection
    stays stored. *)
Theorem selection_added_before_view_opens (requestId : string) (ed : TextEditor)
    (this : State) (w : WebViewService.Webview) :
  isFile ed = true -> isEmpty ed = false ->
  WebViewService.webviews (service this) = [] ->
  WebViewService.readyWebviews (service this) = [] ->
  (forall n p, postMessageThrows n w p = false) ->
  exists selection,
    buildSelectionRange (Some ed) = Some selection /\
    let m := selectionMessage requestId (Some (SelectionState.stamp selection)) in
    let this1 := addSelectionToChat requestId (Some ed) this in
    let opened :=
      WebViewService.markWebviewReady postMessageThrows w
        (WebViewService.resolveWebviewView w (service this1)) in
    pending this1 = true /\
    WebViewService.posts (service this1) = WebViewService.posts (service this) /\
    In (WebViewService.wrap m) (WebViewService.pendingMessages (service this1)) /\
    WebViewService.posts opened =
      WebViewService.posts (service this) ++
      map (fun p => {| WebViewService.target := w; WebViewService.payload := p;
                       WebViewService.threw := false |})
        (WebViewService.pendingMessages (service this1)) /\
    WebViewService.pendingMessages opened = [] /\
    SelectionState.hasPendingAutoInclude (WebViewService.selectionState opened) = false /\
    SelectionState.getSnapshot (WebViewService.selectionState opened) = Some selection.
Proof.
  intros Hf He Hw Hr Hok. eexists. split.
  { unfold buildSelectionRange. rewrite Hf, He. reflexivity. }
  set (selection := {| SelectionState.filePath := fsPath ed |}).
  intros m this1 opened.
  pose proof (announces_marked requestId (Some (SelectionState.stamp selection))) as Ha.
  fold m in Ha. change (marked _) with true in Ha.
  set (svc := service (onSelectionState
                (SelectionState.set (Some selection) (Some true)) this)).
  assert (service this1 = WebViewService.enqueuePendingMessage m svc) as E.
  { subst this1. unfold Extension.addSelectionToChat, Extension.syncSelection.
    rewrite He, Hf. cbn [orb negb]. unfold buildSelectionRange. rewrite Hf, He.
    cbn [orb negb default]. unfold Extension.sendSelectionUpdate.
    cbn [default negb andb service].
    by apply WebViewFacts.postMessage_none_ready. }
  unfold pending. subst opened. rewrite E.
  split; [reflexivity|]. split; [reflexivity|].
  split; [apply ServiceMore.enqueue_holds|].
  set (queued := WebViewService.enqueuePendingMessage m svc).
  set (this0 := WebViewService.nowReady w (WebViewService.resolveWebviewView w queued)).
  assert (WebViewService.markWebviewReady postMessageThrows w
            (WebViewService.resolveWebviewView w queued) =
          WebViewService.flushPendingMessages postMessageThrows this0) as ->.
  { unfold WebViewService.markWebviewReady. cbn [WebViewService.readyWebviews
      WebViewService.resolveWebviewView WebViewService.registerWebview queued
      WebViewService.enqueuePendingMessage svc onSelectionState service].
    assert (WebViewService.has w (WebViewService.readyWebviews (service this)) = false)
      as -> by (by rewrite Hr).
    reflexivity. }
  assert (WebViewService.readyWebviews this0 = [w]) as R0.
  { subst this0 queued svc. simpl. by rewrite Hr. }
  assert (WebViewService.pendingMessages this0 = WebViewService.pendingMessages queued)
    as P0 by reflexivity.
  assert (WebViewService.pendingMessages this0 <> []) as N0.
  { rewrite P0. apply WebViewFacts.enqueue_nonempty. }
  assert (WebViewService.addressed (WebViewService.webviewConfigs this0 !! w) = true) as A0.
  { subst this0. simpl. by rewrite lookup_insert_eq. }
  destruct (WebViewFacts.flush_single postMessageThrows w this0 R0 N0 A0)
    as (Hq & Hp & _).
  destruct (WebViewFacts.replay_spec postMessageThrows w
              (WebViewService.pendingMessages this0) this0) as (Hs & _).
  rewrite (WebViewFacts.replay_accepted postMessageThrows w _ this0 Hok) in Hs.
  rewrite Hq, Hp, Hs, P0.
  split; [reflexivity|]. split; [reflexivity|].
  rewrite (ServiceMore.flush_single_selection postMessageThrows w this0 R0 N0 A0).
  rewrite (ServiceMore.replay_selection postMessageThrows).
  rewrite (WebViewFacts.replay_accepted postMessageThrows w _ this0 Hok), P0.
  assert (existsb (fun c => WebViewService.succeeded c &&
                     WebViewService.announcesAutoInclude (WebViewService.payload c))
            (map (fun p => {| WebViewService.target := w; WebViewService.payload := p;
                              WebViewService.threw := false |})
               (WebViewService.pendingMessages queued)) = true) as ->.
  { apply existsb_exists. eexists. split.
    - apply in_map, (ServiceMore.enqueue_holds m svc).
    - simpl. exact Ha. }
  split; reflexivity.
Qed.

End WithHost.

Lemma add_selection_witness :
  isFile sampleEditor = true /\ isEmpty sampleEditor = false /\
  exists selection,
    buildSelectionRange (Some sampleEditor) = Some selection /\
    pending (addSelectionToChat Samples.accepting "selection-1" (Some sampleEditor) initial) =
      true.
Proof.
  split; [reflexivity|]. split; [reflexivity|].
  destruct (add_selection_announced Samples.accepting "selection-1" sampleEditor initial)
    as (selection & Hb & _ & _ & Hp & _); [reflexivity|reflexivity|].
  exists selection. split; [exact Hb|]. rewrite Hp. reflexivity.
Defined.

Lemma pending_kept_witness :
  let this := addSelectionToChat Samples.accepting "selection-1" (Some sampleEditor) initial in
  buildSelectionRange (Some outputPanel) = None /\
  syncSelection Samples.accepting "selection-2" (Some outputPanel) None this = this.
Proof.
  intros this. split; [reflexivity|].
  apply (pending_kept_when_focus_leaves Samples.accepting "selection-2" (Some outputPanel)
           None this); reflexivity.
Defined.

Lemma unchanged_selection_witness :
  default false (None : option bool) = false /\
  syncSelection Samples.accepting "selection-2" (Some sampleEditor) None
    (syncSelection Samples.accepting "selection-1" (Some sampleEditor) None initial) =
  syncSelection Samples.accepting "selection-1" (Some sampleEditor) None initial.
Proof.
  split; [reflexivity|].
  apply (unchanged_selection_sent_once Samples.accepting "selection-1" "selection-2"
           (Some sampleEditor) None initial).
  reflexivity.
Defined.

Lemma selection_added_witness :
  isFile sampleEditor = true /\ isEmpty sampleEditor = false /\
  WebViewService.webviews (service initial) = [] /\
  WebViewService.readyWebviews (service initial) = [] /\
  (forall n p, Samples.accepting n 7 p = false) /\
  SelectionState.hasPendingAutoInclude
    (WebViewService.selectionState
       (WebViewService.markWebviewReady Samples.accepting 7
          (WebViewService.resolveWebviewView 7
             (service (addSelectionToChat Samples.accepting "selection-1"
                         (Some sampleEditor) initial))))) = false.
Proof.
  split; [reflexivity|]. split; [reflexivity|]. split; [reflexivity|].
  split; [reflexivity|]. split; [reflexivity|].
  destruct (selection_added_before_view_opens Samples.accepting "selection-1" sampleEditor
              initial 7 eq_refl eq_refl eq_refl eq_refl (fun _ _ => eq_refl))
    as (selection & _ & _ & _ & _ & _ & _ & Hp & _).
  exact Hp.
Defined.

End ExtensionFacts.
